(** * webp-conv: a model of [index.js] and the properties of its batch driver

    The script converts every compatible image of an input directory by
    spawning one [cwebp] process per file, with a counter [concurrency]
    that is meant to keep at most [MAX_CONCURRENT_FILES] processes alive.

    The development follows the file top-down:
    - [JS]: the part of the JavaScript string and value model the script
      relies on ([indexOf], [lastIndexOf], [substr], [split], [trim],
      [toLowerCase], [parseFloat], truthiness);
    - the helper functions [hack_IsErrorAnError] and [checkArgsForFlag];
    - [main]: the synchronous part of [main()], up to the point where
      [Promise.all] has been handed one promise per file;
    - [step]: the event loop afterwards (timers, promise jobs, child
      process events), as a total transition function on [State];
    - [script]: the whole file, with the line printed when the promise of
      [main] is fulfilled. *)

From Stdlib Require Import ZArith Lia Bool Ascii.
From stdpp Require Import base list strings pretty.

Local Open Scope Z_scope.

(** ** JavaScript values and string primitives *)

Module JS.

(** The values that flow through the script. *)
Inductive Value :=
| Undefined
| Null
| Bool (b : bool)
| Num (z : Z)
| Str (s : string).

(** [Boolean(v)], also the test of [if (v)] and the operand of [!v]. *)
Definition Boolean (v : Value) : bool :=
  match v with
  | Undefined | Null => false
  | Bool b => b
  | Num z => negb (z =? 0)
  | Str s => negb (String.eqb s EmptyString)
  end.

Definition code (c : ascii) : Z := Z.of_nat (nat_of_ascii c).

(** Code units below 256 that ECMAScript counts as WhiteSpace or
    LineTerminator: TAB, LF, VT, FF, CR, SP and NBSP. *)
Definition is_white (c : ascii) : bool :=
  let n := code c in
  ((9 <=? n) && (n <=? 13)) || (n =? 32) || (n =? 160).

Definition is_digit (c : ascii) : bool :=
  let n := code c in (48 <=? n) && (n <=? 57).

Fixpoint trimStart (s : string) : string :=
  match s with
  | EmptyString => EmptyString
  | String c s' => if is_white c then trimStart s' else s
  end.

Fixpoint trimEnd (s : string) : string :=
  match s with
  | EmptyString => EmptyString
  | String c s' =>
      match trimEnd s' with
      | EmptyString => if is_white c then EmptyString else String c EmptyString
      | t => String c t
      end
  end.

Definition trim (s : string) : string := trimEnd (trimStart s).

(** [toLowerCase] on code units below 256: A-Z and the Latin-1 capitals. *)
Definition lower (c : ascii) : ascii :=
  let n := code c in
  if ((65 <=? n) && (n <=? 90))
     || ((192 <=? n) && (n <=? 222) && negb (n =? 215))
  then ascii_of_nat (Z.to_nat (n + 32)) else c.

Fixpoint toLowerCase (s : string) : string :=
  match s with
  | EmptyString => EmptyString
  | String c s' => String (lower c) (toLowerCase s')
  end.

(** [hay.indexOf(needle)]: first position at which [needle] occurs, -1 if
    there is none. *)
Fixpoint indexOf_from (needle hay : string) (pos : Z) : Z :=
  if String.prefix needle hay then pos
  else match hay with
       | EmptyString => -1
       | String _ hay' => indexOf_from needle hay' (pos + 1)
       end.

Definition indexOf (hay needle : string) : Z := indexOf_from needle hay 0.

(** [hay.lastIndexOf(needle)]: last position at which [needle] occurs. *)
Fixpoint lastIndexOf_from (needle hay : string) (pos : Z) : Z :=
  let here := if String.prefix needle hay then pos else -1 in
  match hay with
  | EmptyString => here
  | String _ hay' =>
      let later := lastIndexOf_from needle hay' (pos + 1) in
      if later =? -1 then here else later
  end.

Definition lastIndexOf (hay needle : string) : Z :=
  lastIndexOf_from needle hay 0.

Fixpoint skip (n : nat) (s : string) : string :=
  match n, s with
  | O, _ => s
  | S _, EmptyString => EmptyString
  | S n', String _ s' => skip n' s'
  end.

(** [s.substr(start)] without a length: a negative [start] counts from
    the end of the string. *)
Definition substr (s : string) (start : Z) : string :=
  let len := Z.of_nat (String.length s) in
  let from := if start <? 0 then Z.max (len + start) 0 else Z.min start len in
  skip (Z.to_nat from) s.

(** [s.split(sep)] for a separator of one code unit; the result is never
    empty, and [split sep ""] is the one-element list of the empty
    string. *)
Fixpoint split (sep : ascii) (s : string) : list string :=
  match s with
  | EmptyString => [EmptyString]
  | String c s' =>
      let rest := split sep s' in
      if Ascii.eqb c sep then EmptyString :: rest
      else match rest with
           | [] => [String c EmptyString]
           | t :: ts => String c t :: ts
           end
  end.

(** [arr.findIndex(p)]. *)
Fixpoint findIndex_from {A} (p : A → bool) (l : list A) (pos : Z) : Z :=
  match l with
  | [] => -1
  | x :: l' => if p x then pos else findIndex_from p l' (pos + 1)
  end.

Definition findIndex {A} (p : A → bool) (l : list A) : Z :=
  findIndex_from p l 0.

(** [arr.find(p)], [undefined] when no element passes. *)
Definition find (p : string → bool) (l : list string) : Value :=
  match List.find p l with
  | Some a => Str a
  | None => Undefined
  end.

(** *** parseFloat

    [parseFloat] drops leading white space and reads the longest prefix
    that is a StrDecimalLiteral: an optional sign, then [Infinity], or
    digits with an optional fraction, or a dot followed by digits, each
    with an optional exponent. The result is [NaN] exactly when no prefix
    has that shape. The model returns the text of the literal that was
    read, which determines the number. *)

Inductive Number :=
| NaN
| Literal (text : string).

Fixpoint digits (s : string) : string * string :=
  match s with
  | String c s' =>
      if is_digit c then let (d, r) := digits s' in (String c d, r)
      else (EmptyString, s)
  | EmptyString => (EmptyString, EmptyString)
  end.

Definition sign (s : string) : string * string :=
  match s with
  | String c s' =>
      if (code c =? 43) || (code c =? 45) then (String c EmptyString, s')
      else (EmptyString, s)
  | EmptyString => (EmptyString, EmptyString)
  end.

Definition exponent (s : string) : string :=
  match s with
  | String c s' =>
      if (code c =? 101) || (code c =? 69) then
        let (sg, r) := sign s' in
        let (d, _) := digits r in
        match d with
        | EmptyString => EmptyString
        | _ => String c (sg +:+ d)
        end
      else EmptyString
  | EmptyString => EmptyString
  end.

Definition parseFloat (s : string) : Number :=
  let (sg, r) := sign (trimStart s) in
  if String.prefix "Infinity" r then Literal (sg +:+ "Infinity")
  else
    let (ip, r1) := digits r in
    match r1 with
    | String "." r2 =>
        let (fp, r3) := digits r2 in
        match ip, fp with
        | EmptyString, EmptyString => NaN
        | _, _ => Literal (sg +:+ ip +:+ "." +:+ fp +:+ exponent r3)
        end
    | _ =>
        match ip with
        | EmptyString => NaN
        | _ => Literal (sg +:+ ip +:+ exponent r1)
        end
    end.

Definition isNaN (n : Number) : bool :=
  match n with NaN => true | Literal _ => false end.

End JS.

(** ** Constants of the script *)

Definition COMPATIBLE_FILE_EXTS : list string := ["png"; "jpg"; "jpeg"].
Definition MAX_CONCURRENT_FILES : Z := 3.

(** The help text, as the lines of the template literal. It documents four
    flags. *)
Definition HELP_TEXT_lines : list string :=
  [ EmptyString;
    "webp-conv";
    "Usage: node index.js [optional path to input folder] [optional path to output folder] [optional path to cwebp] [flags]";
    "Compatible formats: " +:+ String.concat ", " COMPATIBLE_FILE_EXTS;
    EmptyString;
    "Flags:";
    "    -h - Show this help prompt and exit";
    "    -s - Execute script silently";
    "    -t - Test mode (i.e. no actual processes are spawned)";
    "    -c [number] - Maximum number of cwebp processes allowed at once (default: "
      +:+ pretty MAX_CONCURRENT_FILES +:+ ")";
    EmptyString ].

Definition nl : string := String "010" EmptyString.
Definition dquote : string := String "034" EmptyString.

Definition HELP_TEXT : string := String.concat nl HELP_TEXT_lines.

(** The initial contents of the array [BASE_WEBP_SETTINGS]. The array
    object itself is mutable and lives in the state of the script. *)
Definition BASE_WEBP_SETTINGS_init : list string :=
  ["-mt"; "-q 50"; "-pass 10"; "-m 6"; "-alpha_filter best"; "-short"; "-af"].

(** ** Helper functions *)

(** [hack_IsErrorAnError(err)]. The body of the [try] cannot throw:
    [errSplit] is never empty, so [errStrToCheck] is a string and the
    [catch] branch with its [return true] is never entered. When the test
    fails, control falls off the end of the function, which yields
    [undefined]. *)
Definition hack_IsErrorAnError (err : JS.Value) : JS.Value :=
  let errSplit :=
    match err with
    | JS.Str s => JS.split " " s
    | _ => [EmptyString]
    end in
  let errStrToCheck := List.last errSplit EmptyString in
  let isADecimal := negb (JS.indexOf errStrToCheck "." =? -1) in
  let isValidFloat := negb (JS.isNaN (JS.parseFloat errStrToCheck)) in
  if isADecimal && isValidFloat then JS.Bool false else JS.Undefined.

(** [checkArgsForFlag(flag)], with the global [args] as a parameter. *)
Definition checkArgsForFlag (args : list string) (flag : string) : bool :=
  JS.Boolean (JS.find (fun a => JS.indexOf a flag =? 0) args).

(** The filter of [readdirSync(...)] in [main]. *)
Definition eExt (e : string) : string :=
  JS.substr (JS.toLowerCase e) (JS.lastIndexOf e "." + 1).

Definition compatible (e : string) : bool :=
  negb (JS.findIndex
          (fun ext => negb (JS.indexOf ext (eExt e) =? -1))
          COMPATIBLE_FILE_EXTS =? -1).

Definition inputFiles_of (listing : list string) : list string :=
  List.filter compatible listing.

(** ** The state of the script *)

(** What the script needs from its host: [os.platform()], [path.resolve]
    and the two [fs] calls. *)
Record Host := {
  osType : string;
  path_resolve : string → string;
  existsSync : string → bool;
  readdirSync : string → list string
}.

(** Where the promise executor of one file stands.
    - [Pending]: [inputFiles.map] has not reached the file yet;
    - [Sleeping]: suspended in [waitForTruth], a [setTimeout] callback of
      [waitAsync] is outstanding;
    - [RetryQueued]: the timer has fired and resolved the promise of
      [waitAsync]; its reaction [() => retry()] is in the job queue;
    - [ResumeQueued]: [retry] found the predicate true and resolved the
      promise of [waitForTruth]; the rest of the executor, after the
      [await], is in the job queue;
    - [Running]: [cwebp] has been spawned and the handlers are registered;
    - [Done]: [_resolve()] has been called. *)
Inductive Phase := Pending | Sleeping | RetryQueued | ResumeQueued | Running | Done.

Global Instance Phase_eq_dec : EqDecision Phase.
Proof. solve_decision. Defined.

(** Promise jobs (microtasks). *)
Inductive Job :=
| JRetry (i : nat)
| JResume (i : nat).

(** What the script does, in order. [Incr] and [Decr] mark the executions
    of [concurrency++] and [concurrency--], and [Resolve] the calls of the
    local function [resolve(err)] of a file; the others are the calls of
    [console.log] (through [log]), [console.error] and [spawn]. *)
Inductive Action :=
| Log (args : list JS.Value)
| Error (args : list JS.Value)
| Incr (i : nat)
| Decr (i : nat)
| Spawn (i : nat) (command : string) (argv : list string) (shell : bool)
| Resolve (i : nat) (err : JS.Value).

Record State := {
  silentMode : bool;
  testMode : bool;
  inputDirectory : string;
  outputDirectory : string;
  BASE_WEBP_SETTINGS : list string;
  inputFiles : list string;
  concurrency : Z;
  phases : list Phase;
  jobs : list Job;
  trace : list Action
}.

Definition emit (a : Action) (st : State) : State :=
  {| silentMode := silentMode st; testMode := testMode st;
     inputDirectory := inputDirectory st; outputDirectory := outputDirectory st;
     BASE_WEBP_SETTINGS := BASE_WEBP_SETTINGS st; inputFiles := inputFiles st;
     concurrency := concurrency st; phases := phases st; jobs := jobs st;
     trace := trace st ++ [a] |}.

Definition set_concurrency (z : Z) (st : State) : State :=
  {| silentMode := silentMode st; testMode := testMode st;
     inputDirectory := inputDirectory st; outputDirectory := outputDirectory st;
     BASE_WEBP_SETTINGS := BASE_WEBP_SETTINGS st; inputFiles := inputFiles st;
     concurrency := z; phases := phases st; jobs := jobs st;
     trace := trace st |}.

Definition set_phase (i : nat) (p : Phase) (st : State) : State :=
  {| silentMode := silentMode st; testMode := testMode st;
     inputDirectory := inputDirectory st; outputDirectory := outputDirectory st;
     BASE_WEBP_SETTINGS := BASE_WEBP_SETTINGS st; inputFiles := inputFiles st;
     concurrency := concurrency st; phases := <[i := p]> (phases st);
     jobs := jobs st; trace := trace st |}.

Definition set_jobs (js : list Job) (st : State) : State :=
  {| silentMode := silentMode st; testMode := testMode st;
     inputDirectory := inputDirectory st; outputDirectory := outputDirectory st;
     BASE_WEBP_SETTINGS := BASE_WEBP_SETTINGS st; inputFiles := inputFiles st;
     concurrency := concurrency st; phases := phases st; jobs := js;
     trace := trace st |}.

(** [BASE_WEBP_SETTINGS.push(arg)]: the one array object grows. *)
Definition push (arg : string) (st : State) : State :=
  {| silentMode := silentMode st; testMode := testMode st;
     inputDirectory := inputDirectory st; outputDirectory := outputDirectory st;
     BASE_WEBP_SETTINGS := BASE_WEBP_SETTINGS st ++ [arg];
     inputFiles := inputFiles st;
     concurrency := concurrency st; phases := phases st; jobs := jobs st;
     trace := trace st |}.

Definition enqueue (j : Job) (st : State) : State :=
  set_jobs (jobs st ++ [j]) st.

Definition file (i : nat) (st : State) : string :=
  default EmptyString (inputFiles st !! i).

Definition phase_is (p : Phase) (i : nat) (st : State) : bool :=
  bool_decide (phases st !! i = Some p).

(** [log(...)]. *)
Definition log (args : list JS.Value) (st : State) : State :=
  if silentMode st then st else emit (Log args) st.

Definition ToString (v : JS.Value) : string :=
  match v with
  | JS.Undefined => "undefined"
  | JS.Null => "null"
  | JS.Bool true => "true"
  | JS.Bool false => "false"
  | JS.Num z => pretty z
  | JS.Str s => s
  end.

(** ** The promise executor of one file and its handlers *)

Section Script.

Variable h : Host.

Definition cwebpExt : string :=
  if String.eqb (osType h) "win32" then ".exe" else EmptyString.

Definition cwebpPath : string := path_resolve h ("bin/cwebp" +:+ cwebpExt).

(** The local function [resolve(err)] of file [i]: one line of output,
    then [_resolve()], which settles the promise of the file. *)
Definition resolve (i : nat) (err : JS.Value) (st : State) : State :=
  let e := file i st in
  let st := emit (Resolve i err) st in
  let st :=
    if JS.Boolean err
    then log [JS.Str ("Generated " +:+ e +:+ ".webp with warnings."
                        +:+ nl +:+ ToString err)] st
    else log [JS.Str ("Generated " +:+ e +:+ ".webp")] st in
  set_phase i Done st.

(** The executor after the gate: from [if (!testMode)] to its end. The two
    handlers on [proc.stdout] print nothing and are left out: [end] carries
    no data, and a stream has no [message] event. *)
Definition dispatch (i : nat) (st : State) : State :=
  if negb (testMode st) then
    let e := file i st in
    let st := set_concurrency (concurrency st + 1) (emit (Incr i) st) in
    (* const cwebpArgs = BASE_WEBP_SETTINGS: a second name for the array *)
    let st := push ("-o " +:+ dquote +:+ outputDirectory st +:+ e
                      +:+ ".webp" +:+ dquote) st in
    let st := push (dquote +:+ inputDirectory st +:+ e +:+ dquote) st in
    let st := log [JS.Str ("Executing cwebp on " +:+ e +:+ "...")] st in
    let st := emit (Spawn i cwebpPath (BASE_WEBP_SETTINGS st)
                      (String.eqb (osType h) "win32")) st in
    set_phase i Running st
  else resolve i JS.Undefined st.

(** [retry()] inside [waitForTruth(() => concurrency < MAX_CONCURRENT_FILES)].
    When the predicate holds, the promise of [waitForTruth] is resolved
    and the executor, suspended at [await], is queued as a job; otherwise
    [waitAsync()] arms a timer that will call [retry] again. *)
Definition retry (i : nat) (st : State) : State :=
  if concurrency st <? MAX_CONCURRENT_FILES
  then enqueue (JResume i) (set_phase i ResumeQueued st)
  else set_phase i Sleeping st.

(** The executor up to its first suspension. *)
Definition executor (i : nat) (st : State) : State :=
  if MAX_CONCURRENT_FILES <=? concurrency st
  then retry i st
  else dispatch i st.

(** The handler of the [close] event of the process of file [i]; the
    exit code is [null] when a signal ended the process. *)
Definition on_close (i : nat) (code : option Z) (st : State) : State :=
  let e := file i st in
  let st :=
    if bool_decide (code = Some 0) then st
    else emit (Error [JS.Str "Non-zero process exit code %i on file '%s'";
                      from_option JS.Num JS.Null code; JS.Str e]) st in
  let st := set_concurrency (concurrency st - 1) (emit (Decr i) st) in
  resolve i JS.Undefined st.

(** The handler of the [data] event of [proc.stderr]. The call
    [hack_IsErrorAnError()] has no argument. *)
Definition on_stderr_data (i : nat) (_err : string) (st : State) : State :=
  let e := file i st in
  let err := JS.trim _err in
  if negb (JS.Boolean (hack_IsErrorAnError JS.Undefined)) then st
  else
    let st := emit (Error [JS.Str ("Error on file '%s':" +:+ nl +:+ "%s");
                           JS.Str e; JS.Str err]) st in
    let st := set_concurrency (concurrency st - 1) (emit (Decr i) st) in
    resolve i (JS.Str err) st.

(** ** The event loop

    A turn of the loop is one callback of the host (a timer, or an event
    of a child process) followed by the promise jobs it leaves behind:
    the host takes the next callback only when the job queue is empty.
    [RunJob] runs the oldest job. An event that cannot happen in a state
    leaves it as it is. A process closes once, after its last write to
    stderr; a process that cannot be started is outside the model. *)
Inductive Event :=
| Timer (i : nat)
| Close (i : nat) (code : option Z)
| StderrData (i : nat) (chunk : string)
| RunJob.

Definition run_job (j : Job) (st : State) : State :=
  match j with
  | JRetry i => retry i st
  | JResume i => dispatch i st
  end.

Definition idle (st : State) : bool :=
  match jobs st with [] => true | _ => false end.

Definition step (st : State) (ev : Event) : State :=
  match ev with
  | RunJob =>
      match jobs st with
      | [] => st
      | j :: js => run_job j (set_jobs js st)
      end
  | Timer i =>
      if idle st && phase_is Sleeping i st
      then enqueue (JRetry i) (set_phase i RetryQueued st)
      else st
  | Close i code =>
      if idle st && phase_is Running i st then on_close i code st else st
  | StderrData i chunk =>
      if idle st && phase_is Running i st then on_stderr_data i chunk st
      else st
  end.

Definition run (st : State) (evs : list Event) : State := foldl step st evs.

(** ** main *)

Definition init : State :=
  {| silentMode := false; testMode := false;
     inputDirectory := "input/"; outputDirectory := "output/";
     BASE_WEBP_SETTINGS := BASE_WEBP_SETTINGS_init;
     inputFiles := []; concurrency := 0; phases := []; jobs := [];
     trace := [] |}.

Definition set_flags (silent test : bool) (st : State) : State :=
  {| silentMode := silent; testMode := test;
     inputDirectory := inputDirectory st; outputDirectory := outputDirectory st;
     BASE_WEBP_SETTINGS := BASE_WEBP_SETTINGS st; inputFiles := inputFiles st;
     concurrency := concurrency st; phases := phases st; jobs := jobs st;
     trace := trace st |}.

Definition set_directories (input output : string) (st : State) : State :=
  {| silentMode := silentMode st; testMode := testMode st;
     inputDirectory := input; outputDirectory := output;
     BASE_WEBP_SETTINGS := BASE_WEBP_SETTINGS st; inputFiles := inputFiles st;
     concurrency := concurrency st; phases := phases st; jobs := jobs st;
     trace := trace st |}.

(** [inputFiles] is read, and one promise per file is about to be made. *)
Definition set_inputFiles (files : list string) (st : State) : State :=
  {| silentMode := silentMode st; testMode := testMode st;
     inputDirectory := inputDirectory st; outputDirectory := outputDirectory st;
     BASE_WEBP_SETTINGS := BASE_WEBP_SETTINGS st; inputFiles := files;
     concurrency := concurrency st;
     phases := replicate (length files) Pending;
     jobs := jobs st; trace := trace st |}.

Definition error_unless (v : JS.Value) (args : list JS.Value) (st : State)
  : State :=
  if JS.Boolean v then st else emit (Error args) st.

(** [main()] until it returns the promise of [Promise.all]; [args] is
    [process.argv.slice(2)]. The executors run one after the other inside
    [inputFiles.map], each up to its first [await]. *)
Definition main (args : list string) : State :=
  if checkArgsForFlag args "-h" then log [JS.Str HELP_TEXT] init
  else
    let st := set_flags (checkArgsForFlag args "-s")
                        (checkArgsForFlag args "-t") init in
    let input :=
      match args !! 0%nat with
      | Some a => if existsSync h a then path_resolve h a else inputDirectory st
      | None => inputDirectory st
      end in
    let output :=
      match args !! 1%nat with
      | Some a => if existsSync h a then path_resolve h a else outputDirectory st
      | None => outputDirectory st
      end in
    let st := set_directories input output st in
    let st := log [JS.Str "Platform is %s"; JS.Str (osType h)] st in
    (* the three assignments sit in a chain of ||: a later one is not
       evaluated, and its variable stays undefined, once one fails *)
    let inputExists := JS.Bool (existsSync h (inputDirectory st)) in
    let outputExists :=
      if JS.Boolean inputExists
      then JS.Bool (existsSync h (outputDirectory st)) else JS.Undefined in
    let cwebpExists :=
      if JS.Boolean inputExists && JS.Boolean outputExists
      then JS.Bool (existsSync h cwebpPath) else JS.Undefined in
    if negb (JS.Boolean inputExists) || negb (JS.Boolean outputExists)
       || negb (JS.Boolean cwebpExists)
    then
      let st := error_unless inputExists
                  [JS.Str "Failed to find input directory '%s'!";
                   JS.Str (inputDirectory st)] st in
      let st := error_unless outputExists
                  [JS.Str "Failed to find output directory '%s'!";
                   JS.Str (outputDirectory st)] st in
      error_unless cwebpExists
        [JS.Str "Failed to find cwebp at path '%s'!"; JS.Str cwebpPath] st
    else
      let st := set_inputFiles
                  (inputFiles_of (readdirSync h (inputDirectory st))) st in
      let st :=
        if (length (inputFiles st) =? 0)%nat
        then emit (Error [JS.Str "No compatible files found"]) st
        else log [JS.Str "%i compatible files found.";
                  JS.Num (Z.of_nat (length (inputFiles st)))] st in
      foldl (fun st i => executor i st) st (seq 0 (length (inputFiles st))).

(** [Promise.all] fulfils when the promise of every file is settled. *)
Definition batch_resolved (st : State) : bool :=
  forallb (fun p => bool_decide (p = Done)) (phases st).

End Script.

(** ** Reading a trace *)

Definition is_incr (a : Action) : bool :=
  match a with Incr _ => true | _ => false end.
Definition is_decr (a : Action) : bool :=
  match a with Decr _ => true | _ => false end.
Definition is_resolve (a : Action) : bool :=
  match a with Resolve _ _ => true | _ => false end.

Definition incr_of (i : nat) (a : Action) : bool :=
  match a with Incr j => Nat.eqb j i | _ => false end.
Definition decr_of (i : nat) (a : Action) : bool :=
  match a with Decr j => Nat.eqb j i | _ => false end.
Definition resolve_of (i : nat) (a : Action) : bool :=
  match a with Resolve j _ => Nat.eqb j i | _ => false end.
Definition spawn_of (i : nat) (a : Action) : bool :=
  match a with Spawn j _ _ _ => Nat.eqb j i | _ => false end.

Definition count {A} (p : A → bool) (l : list A) : nat :=
  length (List.filter p l).

(** Slots taken and given back, and calls of [resolve], per file and in
    total. *)
Definition acquires (i : nat) (st : State) : nat := count (incr_of i) (trace st).
Definition releases (i : nat) (st : State) : nat := count (decr_of i) (trace st).
Definition resolutions (i : nat) (st : State) : nat :=
  count (resolve_of i) (trace st).
Definition spawns (i : nat) (st : State) : nat := count (spawn_of i) (trace st).
Definition total_acquires (st : State) : nat := count is_incr (trace st).
Definition total_releases (st : State) : nat := count is_decr (trace st).

(** The recorded outcomes: the calls of [resolve(err)], in order. *)
Definition outcomes (st : State) : list (nat * JS.Value) :=
  omap (fun a => match a with Resolve i err => Some (i, err) | _ => None end)
       (trace st).

(** The argument lists [spawn] was called with, in order. *)
Definition spawned (st : State) : list (nat * list string) :=
  omap (fun a => match a with Spawn i _ argv _ => Some (i, argv) | _ => None end)
       (trace st).

Definition count_phase (q : Phase) (l : list Phase) : nat :=
  count (fun p => bool_decide (p = q)) l.

(** ** Invariant of the batch *)

(** What the trace must hold about a file in phase [p]: how often its slot
    was taken, given back, and how often [resolve] was called. *)
Definition exp_incr (test : bool) (p : Phase) : nat :=
  match p with
  | Running => 1
  | Done => if test then 0 else 1
  | _ => 0
  end.

Definition exp_decr (test : bool) (p : Phase) : nat :=
  match p with
  | Done => if test then 0 else 1
  | _ => 0
  end.

Definition exp_resolve (p : Phase) : nat :=
  match p with Done => 1 | _ => 0 end.

Definition item_ok (st : State) (i : nat) (p : Phase) : Prop :=
  acquires i st = exp_incr (testMode st) p
  ∧ releases i st = exp_decr (testMode st) p
  ∧ resolutions i st = exp_resolve p
  ∧ spawns i st = acquires i st
  ∧ (p = Running → testMode st = false).

(** At most one job is queued, and it belongs to a file in the matching
    phase; a queued resumption has seen a free slot. *)
Definition jobs_ok (st : State) : Prop :=
  match jobs st with
  | [] => True
  | [JRetry i] => phases st !! i = Some RetryQueued
  | [JResume i] =>
      phases st !! i = Some ResumeQueued
      ∧ concurrency st < MAX_CONCURRENT_FILES
  | _ => False
  end.

Record Inv (st : State) : Prop := {
  inv_length : length (phases st) = length (inputFiles st);
  inv_running : concurrency st = Z.of_nat (count_phase Running (phases st));
  inv_bound : concurrency st <= MAX_CONCURRENT_FILES;
  inv_jobs : jobs_ok st;
  inv_items : ∀ i p, phases st !! i = Some p → item_ok st i p;
  inv_balance :
    concurrency st
    = Z.of_nat (total_acquires st) - Z.of_nat (total_releases st);
  inv_settled : count is_resolve (trace st) = count_phase Done (phases st)
}.

(** Output on the console, as opposed to the actions about one file. *)
Definition is_console (a : Action) : bool :=
  match a with Log _ | Error _ => true | _ => false end.

(** The state before the first executor runs: nothing is queued or taken,
    every file is pending, and only console output has happened. *)
Definition Fresh (st : State) : Prop :=
  concurrency st = 0
  ∧ jobs st = []
  ∧ phases st = replicate (length (inputFiles st)) Pending
  ∧ forallb is_console (trace st) = true
  ∧ BASE_WEBP_SETTINGS st = BASE_WEBP_SETTINGS_init.

(** The actions of a step all belong to the file the step is about. *)
Definition about (i : nat) (a : Action) : bool :=
  match a with
  | Incr j | Decr j | Resolve j _ | Spawn j _ _ _ => Nat.eqb j i
  | Log _ | Error _ => true
  end.

(** ** Properties in the words of the specification *)

(** An argument begins with the flag. *)
Definition begins_with (flag a : string) : bool := String.prefix flag a.

Definition flag_present (args : list string) (flag : string) : Prop :=
  ∃ a, a ∈ args ∧ begins_with flag a = true.

(** The extension of an entry, lower-cased, is one of the whitelist. *)
Definition whitelisted (e : string) : bool :=
  bool_decide (eExt e ∈ COMPATIBLE_FILE_EXTS).

(** The argument list for one file alone: the fixed settings, then the
    [-o] argument and the source path of that file. *)
Definition own_argv (st : State) (e : string) : list string :=
  BASE_WEBP_SETTINGS_init
    ++ ["-o " +:+ dquote +:+ outputDirectory st +:+ e +:+ ".webp" +:+ dquote;
        dquote +:+ inputDirectory st +:+ e +:+ dquote].

(** ** Progress of the batch *)

(** How far a file is from being done: the number of events it still
    needs at most, counting a retry that may put it back to sleep. *)
Definition weight (p : Phase) : nat :=
  match p with
  | Done => 0
  | Running => 1
  | ResumeQueued => 2
  | Sleeping => 3
  | RetryQueued => 4
  | Pending => 5
  end.

Definition work (st : State) : nat := sum_list_with weight (phases st).

(** After [main], no file is pending, and a file waits in the job queue
    only while its job is there. *)
Record Queued (st : State) : Prop := {
  no_pending : ∀ i, phases st !! i ≠ Some Pending;
  retry_queued : ∀ i, phases st !! i = Some RetryQueued → jobs st = [JRetry i];
  resume_queued :
    ∀ i, phases st !! i = Some ResumeQueued → jobs st = [JResume i]
}.

(** A host that lets the timer of file [i] fire although the jobs left by
    an earlier callback have not run yet, as Node.js did before version 11
    for timers that expire together. It is not part of [step]. *)
Definition fire_timer_early (i : nat) (st : State) : State :=
  if phase_is Sleeping i st
  then enqueue (JRetry i) (set_phase i RetryQueued st)
  else st.

(** ** A host to run examples on *)

(** A Linux host whose working directory holds [input/], [output/] and
    [bin/cwebp]; [listing] is the content of [input/]. *)
Definition demo_host (listing : list string) : Host :=
  {| osType := "linux";
     path_resolve := fun p => "/work/" +:+ p;
     existsSync := fun p =>
       bool_decide (p ∈ ["input/"; "output/"; "/work/bin/cwebp"]);
     readdirSync := fun d => if String.eqb d "input/" then listing else [] |}.

(** ** More ways to read names, texts and traces *)

(** The code unit [c] occurs in [s]. *)
Fixpoint contains_char (c : ascii) (s : string) : bool :=
  match s with
  | EmptyString => false
  | String d s' => Ascii.eqb d c || contains_char c s'
  end.

(** Every code unit of [s] is ASCII. On such text [toLowerCase] only
    turns A-Z into a-z, one code unit for one; beyond code unit 255 a
    capital can lower-case to two code units, and the strings of this
    model do not reach there. *)
Fixpoint ascii_text (s : string) : bool :=
  match s with
  | EmptyString => true
  | String c s' => (JS.code c <? 128) && ascii_text s'
  end.

(** [needle] occurs somewhere inside [hay]. *)
Definition occurs_in (needle hay : string) : Prop :=
  ∃ pre post, hay = pre +:+ needle +:+ post.

(** The two arguments the executor of file [i] pushes, and the argument
    lists of successive spawns when every file pushes onto the same
    list. *)
Definition args_of (st : State) (i : nat) : list string :=
  ["-o " +:+ dquote +:+ outputDirectory st +:+ file i st +:+ ".webp" +:+ dquote;
   dquote +:+ inputDirectory st +:+ file i st +:+ dquote].

Fixpoint accumulate (f : nat → list string) (base : list string)
    (order : list nat) : list (nat * list string) :=
  match order with
  | [] => []
  | i :: rest => (i, base ++ f i) :: accumulate f (base ++ f i) rest
  end.

(** What was printed with [console.log] and with [console.error]. *)
Definition logs (st : State) : list (list JS.Value) :=
  omap (fun a => match a with Log args => Some args | _ => None end) (trace st).

Definition errors (st : State) : list (list JS.Value) :=
  omap (fun a => match a with Error args => Some args | _ => None end)
       (trace st).

(** The last lines of the file, [main().then(() => log("Script completed."))]:
    the promise of [main] is fulfilled when [main] returns early, or when
    the promise of [Promise.all] is, and the callback runs as a promise job
    before the host takes another event. Once the batch has resolved no
    event changes the state, so the line is the last one written. Nothing
    in the model throws, so the [catch] callback never runs. *)
Definition on_fulfilled (st : State) : State :=
  log [JS.Str "Script completed."] st.

Definition script (h : Host) (args : list string) (evs : list Event) : State :=
  let st := run h (main h args) evs in
  if batch_resolved st then on_fulfilled st else st.

(** The format of the message of the [stderr] handler. *)
Definition stderr_error_format : string :=
  "Error on file '%s':" +:+ nl +:+ "%s".

(** What every action of a run looks like: output through [log] only
    outside silent mode, slots and processes only outside test mode and
    always the one executable, [resolve] only without a value, and never
    the message of the [stderr] handler. *)
Definition wf_action (h : Host) (silent test : bool) (a : Action) : Prop :=
  match a with
  | Log _ => silent = false
  | Error args =>
      match args with
      | JS.Str fmt :: _ => fmt ≠ stderr_error_format
      | _ => True
      end
  | Incr _ => test = false
  | Decr _ => True
  | Spawn _ command _ shell =>
      test = false ∧ command = cwebpPath h
      ∧ shell = String.eqb (osType h) "win32"
  | Resolve _ err => err = JS.Undefined
  end.

Definition wf_trace (h : Host) (st : State) : Prop :=
  Forall (wf_action h (silentMode st) (testMode st)) (trace st).

(** The shared array and the spawns seen so far fit together. *)
Definition args_accumulated (st : State) : Prop :=
  BASE_WEBP_SETTINGS st
  = BASE_WEBP_SETTINGS_init ++ flat_map (args_of st) (spawned st).*1
  ∧ spawned st
    = accumulate (args_of st) BASE_WEBP_SETTINGS_init (spawned st).*1.

Definition is_close (ev : Event) : bool :=
  match ev with Close _ _ => true | _ => false end.

(** The phases right after [main], outside test mode, for [n] files. *)
Definition first_phases (n : nat) : list Phase :=
  replicate (n `min` 3) Running ++ replicate (n - 3) Sleeping.

(** The directories [main] settles on: the first and second argument when
    they name something that exists, the defaults otherwise. *)
Definition chosen_input (h : Host) (args : list string) : string :=
  match args !! 0%nat with
  | Some a => if existsSync h a then path_resolve h a else "input/"
  | None => "input/"
  end.

Definition chosen_output (h : Host) (args : list string) : string :=
  match args !! 1%nat with
  | Some a => if existsSync h a then path_resolve h a else "output/"
  | None => "output/"
  end.

(** The three messages about a missing path. *)
Definition missing_input (st : State) : list JS.Value :=
  [JS.Str "Failed to find input directory '%s'!"; JS.Str (inputDirectory st)].
Definition missing_output (st : State) : list JS.Value :=
  [JS.Str "Failed to find output directory '%s'!"; JS.Str (outputDirectory st)].
Definition missing_cwebp (h : Host) : list JS.Value :=
  [JS.Str "Failed to find cwebp at path '%s'!"; JS.Str (cwebpPath h)].

(** The line [log] prints when [resolve] is called without a value, and
    the test for a line that begins like it. *)
Definition generated_line (st : State) (i : nat) : list JS.Value :=
  [JS.Str ("Generated " +:+ file i st +:+ ".webp")].

Definition is_generated (args : list JS.Value) : bool :=
  match args with
  | [JS.Str s] => String.prefix "Generated " s
  | _ => false
  end.

(** ** Facts about the string primitives *)

Lemma indexOf_from_unfold needle hay pos :
  JS.indexOf_from needle hay pos
  = if String.prefix needle hay then pos
    else match hay with
         | EmptyString => -1
         | String _ hay' => JS.indexOf_from needle hay' (pos + 1)
         end.
Proof. by destruct hay. Qed.

Lemma indexOf_from_range needle hay pos :
  0 <= pos →
  JS.indexOf_from needle hay pos = -1 ∨ pos <= JS.indexOf_from needle hay pos.
Proof.
  revert pos. induction hay as [|c hay IH]; intros pos Hpos;
    rewrite indexOf_from_unfold;
    destruct (String.prefix needle _); try lia.
  destruct (IH (pos + 1) ltac:(lia)) as [->|?]; lia.
Qed.

(** [a.indexOf(flag) === 0] says that [a] begins with [flag]. *)
Lemma indexOf_zero_iff a flag :
  JS.indexOf a flag = 0 ↔ begins_with flag a = true.
Proof.
  unfold JS.indexOf, begins_with. rewrite indexOf_from_unfold.
  destruct (String.prefix flag a); [done|].
  split; [|done]. destruct a as [|c a]; [lia|]. intros Hz.
  destruct (indexOf_from_range flag a (0 + 1) ltac:(lia)) as [H|H]; lia.
Qed.

Lemma begins_with_nonempty flag a :
  flag ≠ EmptyString → begins_with flag a = true → a ≠ EmptyString.
Proof.
  intros Hf Hp ->. destruct flag; [done|]. discriminate Hp.
Qed.

Lemma checkArgsForFlag_iff args flag :
  flag ≠ EmptyString →
  checkArgsForFlag args flag = true ↔ flag_present args flag.
Proof.
  intros Hf. unfold checkArgsForFlag, JS.find, flag_present.
  destruct (List.find _ args) as [a|] eqn:Hfind; simpl.
  - apply List.find_some in Hfind as [Hin Ha].
    apply Z.eqb_eq, indexOf_zero_iff in Ha.
    split.
    + intros _. exists a. split; [by apply list_elem_of_In | done].
    + intros _. apply negb_true_iff, String.eqb_neq.
      by eapply begins_with_nonempty.
  - split; [done|]. intros (a & Hin & Ha).
    apply list_elem_of_In in Hin.
    pose proof (List.find_none _ _ Hfind a Hin) as Hn. simpl in Hn.
    apply indexOf_zero_iff in Ha. rewrite Ha in Hn. discriminate Hn.
Qed.

(** ** Counting *)

Lemma count_app {A} (p : A → bool) (l1 l2 : list A) :
  count p (l1 ++ l2) = (count p l1 + count p l2)%nat.
Proof. unfold count. by rewrite List.filter_app, length_app. Qed.

Lemma count_phase_insert q (l : list Phase) i p p' :
  l !! i = Some p →
  (count_phase q (<[i:=p']> l) + (if bool_decide (p = q) then 1 else 0)
   = count_phase q l + (if bool_decide (p' = q) then 1 else 0))%nat.
Proof.
  revert i. induction l as [|x l IH]; intros [|i] Hi; simplify_eq/=.
  - unfold count_phase, count. simpl.
    destruct (bool_decide (p = q)), (bool_decide (p' = q)); simpl; lia.
  - specialize (IH _ Hi). unfold count_phase, count in *. simpl.
    destruct (bool_decide (x = q)); simpl; lia.
Qed.

Lemma count_phase_all q (l : list Phase) :
  forallb (fun p => bool_decide (p = q)) l = true →
  count_phase q l = length l.
Proof.
  induction l as [|x l IH]; [done|]. simpl. intros [Hx Hl]%andb_true_iff.
  unfold count_phase, count in *. simpl. rewrite Hx. simpl. by rewrite IH.
Qed.

(** Actions about file [i] do not count for another file, and all of them
    count in the totals. *)
Lemma about_other i j acts :
  forallb (about i) acts = true → j ≠ i →
  count (incr_of j) acts = 0%nat ∧ count (decr_of j) acts = 0%nat
  ∧ count (resolve_of j) acts = 0%nat ∧ count (spawn_of j) acts = 0%nat.
Proof.
  intros Hall Hne. induction acts as [|a acts IH]; [done|].
  simpl in Hall. apply andb_true_iff in Hall as [Ha Hall].
  destruct (IH Hall) as (IH1 & IH2 & IH3 & IH4).
  unfold count in *.
  destruct a; simpl in *; try done;
    apply Nat.eqb_eq in Ha; subst;
    (destruct (Nat.eqb_spec i j); [congruence|done]).
Qed.

Lemma about_total i acts :
  forallb (about i) acts = true →
  count is_incr acts = count (incr_of i) acts
  ∧ count is_decr acts = count (decr_of i) acts
  ∧ count is_resolve acts = count (resolve_of i) acts.
Proof.
  intros Hall. induction acts as [|a acts IH]; [done|].
  simpl in Hall. apply andb_true_iff in Hall as [Ha Hall].
  destruct (IH Hall) as (IH1 & IH2 & IH3).
  unfold count in *.
  destruct a; simpl in *; rewrite ?Ha; simpl; repeat split; congruence.
Qed.

(** ** The invariant is kept by every change of one file *)

Lemma Inv_update st st' i p p' acts :
  Inv st →
  phases st !! i = Some p →
  inputFiles st' = inputFiles st →
  testMode st' = testMode st →
  phases st' = <[i:=p']> (phases st) →
  trace st' = trace st ++ acts →
  forallb (about i) acts = true →
  (exp_incr (testMode st) p + count (incr_of i) acts
   = exp_incr (testMode st) p')%nat →
  (exp_decr (testMode st) p + count (decr_of i) acts
   = exp_decr (testMode st) p')%nat →
  (exp_resolve p + count (resolve_of i) acts = exp_resolve p')%nat →
  count (spawn_of i) acts = count (incr_of i) acts →
  (p' = Running → testMode st = false) →
  concurrency st'
  = concurrency st + Z.of_nat (count (incr_of i) acts)
    - Z.of_nat (count (decr_of i) acts) →
  concurrency st' <= MAX_CONCURRENT_FILES →
  jobs_ok st' →
  Inv st'.
Proof.
  intros [Hlen Hrun Hbound Hjobs Hitems Hbal Hset]
    Hp Hfiles Htest Hph Htr Habout Hi Hd Hr Hsp Hrt Hconc Hle Hj.
  destruct (about_total _ _ Habout) as (Ti & Td & Tr).
  pose proof (count_phase_insert Running _ _ _ p' Hp) as HR.
  pose proof (count_phase_insert Done _ _ _ p' Hp) as HD.
  split; try done.
  - by rewrite Hph, length_insert, Hfiles.
  - rewrite Hph, Hconc, Hrun.
    destruct p, p', (testMode st); simpl in *; lia.
  - intros j q Hq. rewrite Hph in Hq.
    unfold item_ok, acquires, releases, resolutions, spawns.
    rewrite Htr, Htest, !count_app.
    apply list_lookup_insert_Some in Hq as [(-> & -> & _)|[Hne Hq]].
    + destruct (Hitems _ _ Hp) as (A & D & R & S & _).
      unfold acquires, releases, resolutions, spawns in *.
      repeat split; [lia..|done].
    + destruct (Hitems _ _ Hq) as (A & D & R & S & T).
      destruct (about_other i j acts Habout) as (Oi & Od & Or & Os); [done|].
      unfold acquires, releases, resolutions, spawns in *.
      repeat split; [lia..|done].
  - unfold total_acquires, total_releases in *.
    rewrite Htr, !count_app, Ti, Td. lia.
  - rewrite Htr, count_app, Tr, Hset, Hph.
    destruct p, p'; simpl in *; lia.
Qed.

(** ** The steps of one file *)

Section Steps.

Variable h : Host.

(** The guard of the [stderr] handler is the classifier applied to
    [undefined]: it is false whatever the process wrote. *)
Lemma stderr_guard : JS.Boolean (hack_IsErrorAnError JS.Undefined) = false.
Proof. reflexivity. Qed.

Lemma on_stderr_data_same i chunk st : on_stderr_data i chunk st = st.
Proof. reflexivity. Qed.

Lemma Inv_dispatch st i p :
  Inv st → phases st !! i = Some p →
  p = Pending ∨ p = ResumeQueued →
  concurrency st < MAX_CONCURRENT_FILES →
  jobs st = [] →
  Inv (dispatch h i st).
Proof.
  intros HI Hp Hidle Hlt Hjobs.
  destruct (testMode st) eqn:Ht, (silentMode st) eqn:Hs;
    unfold dispatch, resolve, log; rewrite ?Ht; simpl; rewrite ?Hs; simpl;
    (eapply (Inv_update st _ i p); [done|done|reflexivity|reflexivity
      |reflexivity| simpl; rewrite <- ?app_assoc; reflexivity |..]);
    simpl; unfold count; simpl; rewrite ?Nat.eqb_refl, ?Ht; simpl;
    unfold jobs_ok; simpl; rewrite ?Hjobs;
    try done; try lia;
    destruct Hidle as [-> | ->]; simpl; lia.
Qed.

Lemma Inv_retry st i p :
  Inv st → phases st !! i = Some p →
  p = Pending ∨ p = RetryQueued →
  jobs st = [] →
  Inv (retry i st).
Proof.
  intros HI Hp Hidle Hjobs.
  pose proof (inv_bound _ HI) as Hb.
  pose proof (lookup_lt_Some _ _ _ Hp) as Hlt.
  unfold retry. destruct (Z.ltb_spec (concurrency st) MAX_CONCURRENT_FILES);
    (eapply (Inv_update st _ i p _ []); [done|done|reflexivity|reflexivity
      |reflexivity| by rewrite app_nil_r |..]);
    simpl; unfold jobs_ok, count; simpl; rewrite ?Hjobs; simpl;
    rewrite ?list_lookup_insert_eq by done;
    try done; try lia;
    destruct Hidle as [-> | ->]; simpl; lia.
Qed.

Lemma Inv_timer st i :
  Inv st → phases st !! i = Some Sleeping → jobs st = [] →
  Inv (enqueue (JRetry i) (set_phase i RetryQueued st)).
Proof.
  intros HI Hp Hjobs.
  pose proof (inv_bound _ HI) as Hb.
  pose proof (lookup_lt_Some _ _ _ Hp) as Hlt.
  eapply (Inv_update st _ i Sleeping _ []); [done|done|reflexivity
    |reflexivity|reflexivity| by rewrite app_nil_r |..];
    simpl; unfold jobs_ok, count; simpl; rewrite ?Hjobs; simpl;
    rewrite ?list_lookup_insert_eq by done; try done; lia.
Qed.

Lemma Inv_on_close st i code :
  Inv st → phases st !! i = Some Running → jobs st = [] →
  Inv (on_close i code st).
Proof.
  intros HI Hp Hjobs.
  pose proof (inv_bound _ HI) as Hb.
  destruct (inv_items _ HI _ _ Hp) as (_ & _ & _ & _ & Ht).
  specialize (Ht eq_refl).
  unfold on_close, resolve, log.
  destruct (bool_decide (code = Some 0)), (silentMode st) eqn:Hs;
    simpl; rewrite ?Hs; simpl;
    (eapply (Inv_update st _ i Running); [done|done|reflexivity|reflexivity
      |reflexivity| simpl; rewrite <- ?app_assoc; reflexivity |..]);
    simpl; unfold count; simpl; rewrite ?Nat.eqb_refl, ?Ht; simpl;
    unfold jobs_ok; simpl; rewrite ?Hjobs;
    try done; lia.
Qed.

(** Every event keeps the invariant. *)
Lemma Inv_step st ev : Inv st → Inv (step h st ev).
Proof.
  intros HI. destruct ev as [i|i code|i chunk|]; simpl.
  - destruct (idle st) eqn:Hidle; [|done].
    unfold phase_is. case_bool_decide as Hp; [|done]. simpl.
    apply Inv_timer; [done..|]. unfold idle in Hidle. by destruct (jobs st).
  - destruct (idle st) eqn:Hidle; [|done].
    unfold phase_is. case_bool_decide as Hp; [|done]. simpl.
    apply Inv_on_close; [done..|]. unfold idle in Hidle. by destruct (jobs st).
  - rewrite on_stderr_data_same. by destruct (_ && _).
  - pose proof (inv_jobs _ HI) as Hj. unfold jobs_ok in Hj.
    destruct (jobs st) as [|j js] eqn:Hjobs; [done|].
    assert (Inv (set_jobs [] st)) as HI'.
    { destruct HI. by split. }
    destruct j as [i|i]; destruct js; try done; simpl.
    + eapply Inv_retry; [done|exact Hj|by right|done].
    + destruct Hj as [Hp Hlt].
      eapply Inv_dispatch; [done|exact Hp|by right|done|done].
Qed.

Lemma Inv_run st evs : Inv st → Inv (run h st evs).
Proof.
  revert st. induction evs as [|ev evs IH]; intros st HI; [done|].
  simpl. apply IH. by apply Inv_step.
Qed.

End Steps.

(** ** From the start of [main] to the last executor *)

Section Main.

Variable h : Host.

(** What [dispatch] and [retry] leave alone, and what they change. *)
Lemma dispatch_fields i st :
  let st' := dispatch h i st in
  silentMode st' = silentMode st ∧ testMode st' = testMode st
  ∧ inputDirectory st' = inputDirectory st
  ∧ outputDirectory st' = outputDirectory st
  ∧ inputFiles st' = inputFiles st ∧ jobs st' = jobs st
  ∧ phases st'
    = <[i := if testMode st then Done else Running]> (phases st).
Proof.
  unfold dispatch, resolve, log.
  destruct (testMode st) eqn:Ht, (silentMode st) eqn:Hs; simpl;
    rewrite ?Hs; simpl; by rewrite ?Ht, ?Hs.
Qed.

Lemma retry_fields i st :
  let st' := retry i st in
  silentMode st' = silentMode st ∧ testMode st' = testMode st
  ∧ inputDirectory st' = inputDirectory st
  ∧ outputDirectory st' = outputDirectory st
  ∧ inputFiles st' = inputFiles st
  ∧ concurrency st' = concurrency st ∧ trace st' = trace st
  ∧ BASE_WEBP_SETTINGS st' = BASE_WEBP_SETTINGS st.
Proof. unfold retry. by destruct (_ <? _). Qed.

Lemma executor_fields i st :
  let st' := executor h i st in
  silentMode st' = silentMode st ∧ testMode st' = testMode st
  ∧ inputDirectory st' = inputDirectory st
  ∧ outputDirectory st' = outputDirectory st
  ∧ inputFiles st' = inputFiles st.
Proof.
  unfold executor. destruct (_ <=? _).
  - destruct (retry_fields i st) as (? & ? & ? & ? & ? & _). done.
  - destruct (dispatch_fields i st) as (? & ? & ? & ? & ? & _). done.
Qed.

Lemma executor_spec st k :
  Inv st → jobs st = [] → phases st !! k = Some Pending →
  Inv (executor h k st)
  ∧ jobs (executor h k st) = []
  ∧ ∀ j, j ≠ k → phases (executor h k st) !! j = phases st !! j.
Proof.
  intros HI Hjobs Hp. unfold executor.
  destruct (Z.leb_spec MAX_CONCURRENT_FILES (concurrency st)) as [Hge|Hlt].
  - split; [by eapply Inv_retry; eauto|].
    unfold retry. destruct (Z.ltb_spec (concurrency st) MAX_CONCURRENT_FILES);
      [lia|]. simpl. split; [done|].
    intros j Hj. by apply list_lookup_insert_ne.
  - split; [by eapply Inv_dispatch; eauto|].
    destruct (dispatch_fields k st) as (_ & _ & _ & _ & _ & -> & ->).
    split; [done|]. intros j Hj. by apply list_lookup_insert_ne.
Qed.

Lemma Inv_executors n : ∀ k st,
  Inv st → jobs st = [] →
  (∀ j, (k <= j < k + n)%nat → phases st !! j = Some Pending) →
  Inv (foldl (fun st i => executor h i st) st (seq k n)).
Proof.
  induction n as [|n IH]; intros k st HI Hjobs Hpend; [done|].
  simpl. destruct (executor_spec st k HI Hjobs) as (HI' & Hjobs' & Hother).
  { apply Hpend. lia. }
  apply IH; [done..|].
  intros j Hj. rewrite Hother by lia. apply Hpend. lia.
Qed.

Lemma count_console_zero (f : Action → bool) tr :
  (∀ a, is_console a = true → f a = false) →
  forallb is_console tr = true → count f tr = 0%nat.
Proof.
  intros Hf. induction tr as [|a tr IH]; [done|]. simpl.
  intros [Ha Htr]%andb_true_iff. unfold count in *. simpl.
  rewrite (Hf a Ha). by apply IH.
Qed.

Lemma count_phase_replicate_ne q p n :
  p ≠ q → count_phase q (replicate n p) = 0%nat.
Proof.
  intros Hne. induction n as [|n IH]; [done|].
  unfold count_phase, count in *. simpl.
  by rewrite bool_decide_eq_false_2.
Qed.

Lemma Inv_Fresh st : Fresh st → Inv st.
Proof.
  intros (Hc & Hj & Hp & Htr & _).
  assert (∀ f, (∀ a, is_console a = true → f a = false) →
               count f (trace st) = 0%nat) as Z0.
  { intros f Hf. by apply count_console_zero. }
  split.
  - by rewrite Hp, length_replicate.
  - by rewrite Hc, Hp, count_phase_replicate_ne.
  - rewrite Hc. done.
  - unfold jobs_ok. by rewrite Hj.
  - intros i p Hi. rewrite Hp in Hi.
    apply lookup_replicate in Hi as [-> _].
    unfold item_ok, acquires, releases, resolutions, spawns.
    rewrite !Z0; [done|by intros []..].
  - unfold total_acquires, total_releases.
    rewrite Hc, !Z0; [done|by intros []..].
  - rewrite Hp, count_phase_replicate_ne by done. apply Z0. by intros [].
Qed.

Lemma Fresh_emit a st :
  is_console a = true → Fresh st → Fresh (emit a st).
Proof.
  intros Ha (? & ? & ? & Htr & ?). repeat split; try done.
  simpl. rewrite forallb_app, Htr. simpl. by rewrite Ha.
Qed.

Lemma Fresh_log args st : Fresh st → Fresh (log args st).
Proof.
  intros HF. unfold log. destruct (silentMode st); [done|].
  by apply Fresh_emit.
Qed.

Lemma Fresh_error_unless v args st :
  Fresh st → Fresh (error_unless v args st).
Proof.
  intros HF. unfold error_unless. destruct (JS.Boolean v); [done|].
  by apply Fresh_emit.
Qed.

Lemma Fresh_set_inputFiles files st :
  Fresh st → Fresh (set_inputFiles files st).
Proof. by intros (? & ? & ? & ? & ?). Qed.

Lemma inputFiles_log args st : inputFiles (log args st) = inputFiles st.
Proof. unfold log. by destruct (silentMode st). Qed.

Lemma inputFiles_error_unless v args st :
  inputFiles (error_unless v args st) = inputFiles st.
Proof. unfold error_unless. by destruct (JS.Boolean v). Qed.

Lemma flags_log args st :
  silentMode (log args st) = silentMode st
  ∧ testMode (log args st) = testMode st.
Proof. unfold log. by destruct (silentMode st) eqn:Hs. Qed.

Lemma flags_error_unless v args st :
  silentMode (error_unless v args st) = silentMode st
  ∧ testMode (error_unless v args st) = testMode st.
Proof. unfold error_unless. by destruct (JS.Boolean v). Qed.

(** [main] prepares a fresh state and then runs the executors in order.
    When it returns early, there is no file and no executor. *)
Lemma main_shape args :
  ∃ st0,
    Fresh st0
    ∧ main h args
      = foldl (fun st i => executor h i st) st0
          (seq 0 (length (inputFiles st0)))
    ∧ (checkArgsForFlag args "-h" = false →
       silentMode st0 = checkArgsForFlag args "-s"
       ∧ testMode st0 = checkArgsForFlag args "-t").
Proof.
  unfold main. destruct (checkArgsForFlag args "-h").
  { exists (log [JS.Str HELP_TEXT] init).
    split; [apply Fresh_log; repeat split; reflexivity|].
    rewrite inputFiles_log. simpl. done. }
  cbv zeta.
  match goal with
  | |- context [set_directories ?i ?o ?s] =>
      generalize i o; intros input output
  end.
  match goal with |- context [if ?c then _ else _] => destruct c end.
  - match goal with |- ∃ st0, _ ∧ ?s = _ ∧ _ => exists s end.
    split; [|split].
    + repeat apply Fresh_error_unless. apply Fresh_log. repeat split; reflexivity.
    + by rewrite !inputFiles_error_unless, inputFiles_log.
    + intros _.
      rewrite !(proj1 (flags_error_unless _ _ _)),
        !(proj2 (flags_error_unless _ _ _)).
      by rewrite (proj1 (flags_log _ _)), (proj2 (flags_log _ _)).
  - match goal with
    | |- context [foldl _ ?s (seq 0 (length (inputFiles ?s)))] =>
        exists s
    end.
    split; [|split; [done|]].
    + match goal with |- context [if ?c then _ else _] => destruct c end.
      * apply Fresh_emit; [done|]. apply Fresh_set_inputFiles.
        apply Fresh_log. repeat split; reflexivity.
      * apply Fresh_log. apply Fresh_set_inputFiles.
        apply Fresh_log. repeat split; reflexivity.
    + intros _.
      match goal with |- context [if ?c then _ else _] => destruct c end;
        simpl; rewrite ?(proj1 (flags_log _ _)), ?(proj2 (flags_log _ _));
        simpl; by rewrite ?(proj1 (flags_log _ _)), ?(proj2 (flags_log _ _)).
Qed.

Lemma foldl_executor_fields l : ∀ st,
  let st' := foldl (fun st i => executor h i st) st l in
  silentMode st' = silentMode st ∧ testMode st' = testMode st
  ∧ inputFiles st' = inputFiles st.
Proof.
  induction l as [|i l IH]; intros st; [done|]. simpl.
  destruct (IH (executor h i st)) as (-> & -> & ->).
  destruct (executor_fields i st) as (? & ? & ? & ? & ?). done.
Qed.

Lemma Inv_main args : Inv (main h args).
Proof.
  destruct (main_shape args) as (st0 & HF & -> & _).
  apply Inv_executors; [by apply Inv_Fresh | apply HF |].
  intros j Hj. destruct HF as (_ & _ & -> & _).
  apply lookup_replicate. split; [done|lia].
Qed.

(** The invariant holds in every state the batch can reach. *)
Lemma Inv_reachable args evs : Inv (run h (main h args) evs).
Proof. apply Inv_run, Inv_main. Qed.

End Main.

(** ** The batch can always finish *)

Section Progress.

Variable h : Host.

Lemma work_insert (l : list Phase) i p p' :
  l !! i = Some p →
  (sum_list_with weight (<[i:=p']> l) + weight p
   = sum_list_with weight l + weight p')%nat.
Proof.
  revert i. induction l as [|x l IH]; intros [|i] Hi; simplify_eq/=; [lia|].
  specialize (IH _ Hi). lia.
Qed.

Lemma retry_phases i st :
  phases (retry i st)
  = <[i := if concurrency st <? MAX_CONCURRENT_FILES
           then ResumeQueued else Sleeping]> (phases st)
  ∧ jobs (retry i st)
    = if concurrency st <? MAX_CONCURRENT_FILES
      then jobs st ++ [JResume i] else jobs st.
Proof. unfold retry. by destruct (_ <? _). Qed.

Lemma on_close_phases i code st :
  phases (on_close i code st) = <[i := Done]> (phases st)
  ∧ jobs (on_close i code st) = jobs st.
Proof.
  unfold on_close, resolve, log.
  destruct (bool_decide _), (silentMode st) eqn:Hs; simpl; by rewrite ?Hs.
Qed.

Lemma idle_jobs st : idle st = true ↔ jobs st = [].
Proof. unfold idle. by destruct (jobs st). Qed.

Lemma Queued_step st ev : Inv st → Queued st → Queued (step h st ev).
Proof.
  intros HI HQ. pose proof HQ as [Hpend Hretry Hresume].
  pose proof (inv_jobs _ HI) as Hj. unfold jobs_ok in Hj.
  assert (∀ i p js',
            (∀ k, k ≠ i → (JRetry k ∉ jobs st) ∧ (JResume k ∉ jobs st)) →
            (p = Pending → False) →
            (p = RetryQueued → js' = [JRetry i]) →
            (p = ResumeQueued → js' = [JResume i]) →
            ∀ st', phases st' = <[i:=p]> (phases st) → jobs st' = js' →
                   Queued st') as Hgen.
  { intros i p js' Hold Hp1 Hp2 Hp3 st' Hph Hjb.
    split; rewrite ?Hph, ?Hjb; intros j Hq;
      apply list_lookup_insert_Some in Hq as [(-> & Heq & _)|[Hne Hq]];
      try (by apply Hp1); try (by apply Hp2); try (by apply Hp3).
    - by apply (Hpend j).
    - apply Hretry in Hq. destruct (Hold j) as [Hk _]; [done|].
      rewrite Hq in Hk. exfalso. apply Hk, list_elem_of_here.
    - apply Hresume in Hq. destruct (Hold j) as [_ Hk]; [done|].
      rewrite Hq in Hk. exfalso. apply Hk, list_elem_of_here. }
  destruct ev as [i|i code|i chunk|]; simpl.
  - destruct (idle st) eqn:Hidle; [|done]. apply idle_jobs in Hidle.
    unfold phase_is. case_bool_decide as Hp; [|done]. simpl.
    eapply (Hgen i RetryQueued [JRetry i]); try done.
    + intros k _. rewrite Hidle. split; apply not_elem_of_nil.
    + simpl. by rewrite Hidle.
  - destruct (idle st) eqn:Hidle; [|done]. apply idle_jobs in Hidle.
    unfold phase_is. case_bool_decide as Hp; [|done]. simpl.
    destruct (on_close_phases i code st) as [Hph Hjb].
    eapply (Hgen i Done []); try done.
    + intros k _. rewrite Hidle. split; apply not_elem_of_nil.
    + by rewrite Hjb.
  - rewrite on_stderr_data_same. by destruct (_ && _).
  - destruct (jobs st) as [|[i|i] [|j' js]] eqn:Hjobs; try done; simpl.
    + destruct (retry_phases i (set_jobs [] st)) as [Hph Hjb].
      simpl in Hph, Hjb.
      destruct (concurrency st <? MAX_CONCURRENT_FILES).
      * eapply (Hgen i ResumeQueued [JResume i]); try done.
        intros k Hk. rewrite !list_elem_of_singleton. split; congruence.
      * eapply (Hgen i Sleeping []); try done.
        intros k Hk. rewrite !list_elem_of_singleton. split; congruence.
    + destruct (dispatch_fields h i (set_jobs [] st))
        as (_ & _ & _ & _ & _ & Hjb & Hph).
      simpl in Hph, Hjb.
      eapply (Hgen i (if testMode st then Done else Running) []); try done.
      * intros k Hk. rewrite !list_elem_of_singleton. split; congruence.
      * by destruct (testMode st).
      * by destruct (testMode st).
      * by destruct (testMode st).
Qed.

Lemma executor_phase st k :
  phases st !! k = Some Pending → jobs st = [] →
  ∃ p, (p = Sleeping ∨ p = Running ∨ p = Done)
       ∧ phases (executor h k st) = <[k:=p]> (phases st)
       ∧ jobs (executor h k st) = [].
Proof.
  intros Hp Hjobs. unfold executor.
  destruct (Z.leb_spec MAX_CONCURRENT_FILES (concurrency st)) as [Hge|Hlt].
  - destruct (retry_phases k st) as [-> ->].
    destruct (Z.ltb_spec (concurrency st) MAX_CONCURRENT_FILES); [lia|].
    exists Sleeping. auto.
  - destruct (dispatch_fields h k st) as (_ & _ & _ & _ & _ & -> & ->).
    exists (if testMode st then Done else Running).
    destruct (testMode st); auto.
Qed.

Lemma Queued_executors n : ∀ k st,
  jobs st = [] →
  (∀ j p, phases st !! j = Some p →
          ((j < k)%nat → p = Sleeping ∨ p = Running ∨ p = Done)
          ∧ ((k <= j)%nat → p = Pending)) →
  length (phases st) = (k + n)%nat →
  let st' := foldl (fun st i => executor h i st) st (seq k n) in
  jobs st' = []
  ∧ ∀ j p, phases st' !! j = Some p → p = Sleeping ∨ p = Running ∨ p = Done.
Proof.
  induction n as [|n IH]; intros k st Hjobs Hph Hlen; simpl.
  { split; [done|]. intros j p Hj. apply (Hph j p Hj).
    apply lookup_lt_Some in Hj. lia. }
  assert (phases st !! k = Some Pending) as Hk.
  { destruct (lookup_lt_is_Some_2 (phases st) k) as [p Hp]; [lia|].
    rewrite Hp. f_equal. by apply (Hph k p Hp). }
  destruct (executor_phase st k Hk Hjobs) as (p & Hset & Hph' & Hjobs').
  apply IH; [done| |by rewrite Hph', length_insert; lia].
  intros j q Hq. rewrite Hph' in Hq.
  apply list_lookup_insert_Some in Hq as [(-> & <- & _)|[Hne Hq]].
  - split; [done|lia].
  - destruct (Hph j q Hq) as [H1 H2]. split; intros; [apply H1|apply H2]; lia.
Qed.

Lemma Queued_main args : Queued (main h args).
Proof.
  destruct (main_shape h args) as (st0 & (_ & Hj & Hp & _) & -> & _).
  destruct (Queued_executors (length (inputFiles st0)) 0 st0 Hj)
    as [Hjobs Hset].
  - intros j p Hjp. rewrite Hp in Hjp. apply lookup_replicate in Hjp as [-> _].
    split; [lia|done].
  - by rewrite Hp, length_replicate.
  - split.
    + intros i Hi. by destruct (Hset _ _ Hi) as [?|[?|?]].
    + intros i Hi. by destruct (Hset _ _ Hi) as [?|[?|?]].
    + intros i Hi. by destruct (Hset _ _ Hi) as [?|[?|?]].
Qed.

Lemma Queued_run st evs : Inv st → Queued st → Queued (run h st evs).
Proof.
  revert st. induction evs as [|ev evs IH]; intros st HI HQ; [done|].
  simpl. apply IH; [by apply Inv_step | by apply Queued_step].
Qed.

Lemma exists_not_done (l : list Phase) :
  forallb (fun p => bool_decide (p = Done)) l = false →
  ∃ i p, l !! i = Some p ∧ p ≠ Done.
Proof.
  induction l as [|x l IH]; [done|]. simpl.
  destruct (bool_decide_reflect (x = Done)) as [->|Hx]; simpl.
  - intros (i & p & Hi & Hp)%IH. by exists (S i), p.
  - intros _. by exists 0%nat, x.
Qed.

Lemma exists_running (l : list Phase) :
  (0 < count_phase Running l)%nat → ∃ i, l !! i = Some Running.
Proof.
  unfold count_phase, count. induction l as [|x l IH]; simpl; [lia|].
  destruct (bool_decide_reflect (x = Running)) as [->|Hx]; simpl.
  - intros _. by exists 0%nat.
  - intros [i Hi]%IH. by exists (S i).
Qed.

Lemma no_running (l : list Phase) i :
  count_phase Running l = 0%nat → l !! i ≠ Some Running.
Proof.
  intros Hz Hi. unfold count_phase, count in Hz.
  assert (In Running (List.filter (fun p => bool_decide (p = Running)) l)) as Hin.
  { apply List.filter_In. split; [|by apply bool_decide_eq_true].
    apply list_elem_of_In, list_elem_of_lookup. eauto. }
  destruct (List.filter _ l); [done|discriminate Hz].
Qed.

Lemma run_cons st ev evs : run h st (ev :: evs) = run h (step h st ev) evs.
Proof. reflexivity. Qed.

Lemma step_Close st i code :
  jobs st = [] → phases st !! i = Some Running →
  step h st (Close i code) = on_close i code st.
Proof.
  intros Hjobs Hi. unfold step, idle, phase_is.
  by rewrite Hjobs, bool_decide_eq_true_2.
Qed.

Lemma step_Timer st i :
  jobs st = [] → phases st !! i = Some Sleeping →
  step h st (Timer i) = set_jobs [JRetry i] (set_phase i RetryQueued st).
Proof.
  intros Hjobs Hi. unfold step, idle, phase_is, enqueue.
  rewrite Hjobs, bool_decide_eq_true_2 by done. simpl. by rewrite Hjobs.
Qed.

Lemma step_RunJob st j :
  jobs st = [j] → step h st RunJob = run_job h j (set_jobs [] st).
Proof. intros Hjobs. unfold step. by rewrite Hjobs. Qed.

(** From an unresolved state, one or two events bring some file closer to
    being done. *)
Lemma progress st :
  Inv st → Queued st → batch_resolved st = false →
  ∃ evs, (work (run h st evs) < work st)%nat.
Proof.
  intros HI HQ Hres. unfold work.
  pose proof (inv_jobs _ HI) as Hj. unfold jobs_ok in Hj.
  destruct (jobs st) as [|[i|i] [|j' js]] eqn:Hjobs; try done.
  - destruct (decide ((0 < count_phase Running (phases st))%nat)) as [Hr|Hr].
    + destruct (exists_running _ Hr) as [i Hi].
      exists [Close i (Some 0)].
      rewrite run_cons, step_Close by done. unfold run, foldl.
      destruct (on_close_phases i (Some 0) st) as [-> _].
      pose proof (work_insert _ _ _ Done Hi). simpl in *. lia.
    + destruct (exists_not_done _ Hres) as (i & p & Hi & Hp).
      assert (p = Sleeping) as ->.
      { destruct p; try done.
        - by destruct (no_pending _ HQ i).
        - apply (retry_queued _ HQ) in Hi. congruence.
        - apply (resume_queued _ HQ) in Hi. congruence.
        - destruct (no_running (phases st) i); [lia|done]. }
      exists [Timer i; RunJob].
      rewrite !run_cons, step_Timer by done.
      rewrite (step_RunJob _ (JRetry i)) by done. unfold run, foldl, run_job.
      destruct (retry_phases i
                  (set_jobs [] (set_jobs [JRetry i] (set_phase i RetryQueued st))))
        as [-> _]. simpl.
      assert ((concurrency st <? MAX_CONCURRENT_FILES) = true) as ->.
      { apply Z.ltb_lt. rewrite (inv_running _ HI).
        unfold MAX_CONCURRENT_FILES. lia. }
      rewrite list_insert_insert_eq.
      pose proof (work_insert _ _ _ ResumeQueued Hi). simpl in *. lia.
  - exists [RunJob].
    rewrite run_cons, (step_RunJob _ (JRetry i)) by done.
    unfold run, foldl, run_job.
    destruct (retry_phases i (set_jobs [] st)) as [-> _]. simpl.
    pose proof (work_insert _ _ _ ResumeQueued Hj).
    pose proof (work_insert _ _ _ Sleeping Hj).
    destruct (_ <? _); simpl in *; lia.
  - destruct Hj as [Hj _]. exists [RunJob].
    rewrite run_cons, (step_RunJob _ (JResume i)) by done.
    unfold run, foldl, run_job.
    destruct (dispatch_fields h i (set_jobs [] st))
      as (_ & _ & _ & _ & _ & _ & ->). simpl.
    pose proof (work_insert _ _ _ Done Hj).
    pose proof (work_insert _ _ _ Running Hj).
    destruct (testMode st); simpl in *; lia.
Qed.

(** Whatever has happened, some further events resolve the batch: no file
    is ever left unable to finish. *)
Lemma can_resolve st :
  Inv st → Queued st → ∃ evs, batch_resolved (run h st evs) = true.
Proof.
  remember (work st) as n eqn:Hn. revert st Hn.
  induction n as [n IH] using lt_wf_ind. intros st -> HI HQ.
  destruct (batch_resolved st) eqn:Hres; [by exists []|].
  destruct (progress st HI HQ Hres) as [evs Hlt].
  destruct (IH _ Hlt (run h st evs) eq_refl) as [evs' Hdone].
  { by apply Inv_run. }
  { by apply Queued_run. }
  exists (evs ++ evs'). unfold run in *. by rewrite foldl_app.
Qed.

End Progress.

(** ** The admission gate and the slots *)

Section Batch.

Variable h : Host.

Lemma batch_resolved_lookup st i :
  batch_resolved st = true → (i < length (phases st))%nat →
  phases st !! i = Some Done.
Proof.
  unfold batch_resolved. intros Hall Hi.
  destruct (lookup_lt_is_Some_2 _ _ Hi) as [p Hp]. rewrite Hp. f_equal.
  rewrite forallb_forall in Hall.
  specialize (Hall p). rewrite bool_decide_eq_true in Hall.
  apply Hall, list_elem_of_In, list_elem_of_lookup. eauto.
Qed.

Lemma batch_resolved_no_running st :
  batch_resolved st = true → count_phase Running (phases st) = 0%nat.
Proof.
  unfold batch_resolved, count_phase, count.
  induction (phases st) as [|p l IH]; [done|]. simpl.
  intros [Hp Hl]%andb_true_iff. apply bool_decide_eq_true in Hp as ->.
  simpl. by apply IH.
Qed.

Lemma outcomes_length st : length (outcomes st) = count is_resolve (trace st).
Proof.
  unfold outcomes, count. induction (trace st) as [|a tr IH]; [done|].
  destruct a; csimpl; by rewrite ?IH.
Qed.

(** C1. In every state a batch can reach, whatever the files and whatever
    the order of timers, promise jobs, writes to stderr and process
    exits, the counter [concurrency] is the number of spawned processes
    that have not closed yet, and it lies between 0 and
    [MAX_CONCURRENT_FILES], which is 3. *)
Theorem concurrency_within_bounds args evs :
  let st := run h (main h args) evs in
  concurrency st = Z.of_nat (count_phase Running (phases st))
  ∧ 0 <= concurrency st <= MAX_CONCURRENT_FILES
  ∧ MAX_CONCURRENT_FILES = 3.
Proof.
  intros st. destruct (Inv_reachable h args evs) as [_ Hrun Hb _ _ _ _].
  fold st in Hrun, Hb. split; [done|]. split; [lia|done].
Qed.

(** The slot is taken before the process is spawned, and it is given back
    right before [resolve] is called. *)
Lemma dispatch_takes_then_spawns i st :
  testMode st = false →
  ∃ mid argv,
    trace (dispatch h i st)
    = trace st ++ Incr i :: mid
        ++ [Spawn i (cwebpPath h) argv (String.eqb (osType h) "win32")]
    ∧ forallb is_console mid = true.
Proof.
  intros Ht. unfold dispatch, log. rewrite Ht.
  destruct (silentMode st) eqn:Hs; simpl; rewrite ?Hs; simpl.
  - exists []. eexists. split; [|done]. by rewrite <- ?app_assoc.
  - eexists [_]. eexists. split; [by rewrite <- ?app_assoc|done].
Qed.

Lemma on_close_releases_then_resolves i code st :
  ∃ pre post,
    trace (on_close i code st)
    = trace st ++ pre ++ Decr i :: Resolve i JS.Undefined :: post
    ∧ forallb is_console pre = true ∧ forallb is_console post = true.
Proof.
  unfold on_close, resolve, log.
  destruct (bool_decide _), (silentMode st) eqn:Hs; simpl; rewrite ?Hs; simpl.
  - exists [], []. split; [|done]. by rewrite <- ?app_assoc.
  - exists []. eexists [_]. split; [by rewrite <- ?app_assoc|done].
  - eexists [_]. exists []. split; [by rewrite <- ?app_assoc|done].
  - eexists [_]. eexists [_]. split; [by rewrite <- ?app_assoc|done].
Qed.

(** C2. Outside test mode, the slot of a file is given back as often as
    [resolve] was called for it, never more often than it was taken, and
    it is taken at most once, each time with one call of [spawn]; once the
    file is done, its slot was taken once and given back once, also when
    its process wrote to stderr before it closed. When the batch has
    resolved, as many slots were given back as were taken and the counter
    [concurrency] is back at 0. The slot is taken before the call of
    [spawn] and given back in the close handler, right before [resolve].
    Taking and giving back are the steps of the counter: at every moment
    [concurrency] is the number of slots taken minus the number given
    back, which is the number of files whose process runs, and a file
    holds its slot exactly while its process runs; starting the file
    raises the counter by one and its close handler lowers it by one. *)
Theorem slot_released_exactly_once args evs i :
  let st := run h (main h args) evs in
  testMode st = false →
  (i < length (inputFiles st))%nat →
  releases i st = resolutions i st
  ∧ (releases i st <= acquires i st <= 1)%nat
  ∧ spawns i st = acquires i st
  ∧ (phases st !! i = Some Done → acquires i st = 1%nat ∧ releases i st = 1%nat)
  ∧ (batch_resolved st = true →
     acquires i st = 1%nat ∧ releases i st = 1%nat
     ∧ total_releases st = total_acquires st
     ∧ concurrency st = 0)
  ∧ (∃ mid argv,
       trace (dispatch h i st)
       = trace st ++ Incr i :: mid
           ++ [Spawn i (cwebpPath h) argv (String.eqb (osType h) "win32")]
       ∧ forallb is_console mid = true)
  ∧ (∀ code, ∃ pre post,
       trace (on_close i code st)
       = trace st ++ pre ++ Decr i :: Resolve i JS.Undefined :: post
       ∧ forallb is_console pre = true ∧ forallb is_console post = true)
  ∧ concurrency st
    = Z.of_nat (total_acquires st) - Z.of_nat (total_releases st)
  ∧ concurrency st = Z.of_nat (count_phase Running (phases st))
  ∧ (phases st !! i = Some Running
     ↔ acquires i st = 1%nat ∧ releases i st = 0%nat)
  ∧ concurrency (dispatch h i st) = concurrency st + 1
  ∧ (∀ code, concurrency (on_close i code st) = concurrency st - 1).
Proof.
  intros st Ht Hi.
  destruct (Inv_reachable h args evs) as [Hlen Hrun _ _ Hitems Hbal _].
  fold st in Hlen, Hrun, Hitems, Hbal. rewrite <- Hlen in Hi.
  destruct (lookup_lt_is_Some_2 _ _ Hi) as [p Hp].
  destruct (Hitems _ _ Hp) as (A & D & R & S & _). rewrite Ht in A, D.
  assert (phases st !! i = Some Done →
          acquires i st = 1%nat ∧ releases i st = 1%nat) as HDone.
  { intros Hd. rewrite Hp in Hd. injection Hd as ->. done. }
  split; [|split; [|split; [done|split; [done|split; [|split; [|split;
    [|split; [done|split; [done|split; [|split]]]]]]]]]].
  - rewrite D, R. by destruct p.
  - rewrite A, D. destruct p; simpl; lia.
  - intros Hres. pose proof (batch_resolved_lookup _ _ Hres Hi) as Hd.
    destruct (HDone Hd) as [-> ->]. split; [done|]. split; [done|].
    rewrite (batch_resolved_no_running _ Hres) in Hrun. lia.
  - by apply dispatch_takes_then_spawns.
  - intros code. apply on_close_releases_then_resolves.
  - rewrite Hp, A, D. split.
    + intros [= ->]. done.
    + intros [Ha Hd]. destruct p; simpl in Ha, Hd; congruence.
  - unfold dispatch, log. rewrite Ht.
    by destruct (silentMode st) eqn:Hs; simpl; rewrite ?Hs.
  - intros code. unfold on_close, resolve, log.
    by destruct (bool_decide _), (silentMode st) eqn:Hs; simpl; rewrite ?Hs.
Qed.

Lemma close_other_phases st i code j :
  j ≠ i → phases (step h st (Close i code)) !! j = phases st !! j.
Proof.
  intros Hne. simpl. destruct (_ && _); [|done].
  unfold on_close, resolve, log.
  destruct (bool_decide _), (silentMode st) eqn:Hs; simpl; rewrite ?Hs;
    simpl; by apply list_lookup_insert_ne.
Qed.

Lemma close_jobs st i code : jobs (step h st (Close i code)) = jobs st.
Proof.
  simpl. destruct (_ && _); [|done].
  unfold on_close, resolve, log.
  destruct (bool_decide _), (silentMode st) eqn:Hs; simpl; by rewrite ?Hs.
Qed.

(** C6. [resolve] is never called twice for a file. When the batch has
    resolved, it has been called once for each file, so there are as many
    outcomes as files, also when there is no file. The close of a
    process, with whatever exit code, leaves the phase of every other
    file and the job queue as they were, and from every state the batch
    can reach, some further events resolve it. *)
Theorem one_outcome_per_file args evs :
  let st := run h (main h args) evs in
  (∀ i, (i < length (inputFiles st))%nat → (resolutions i st <= 1)%nat)
  ∧ (batch_resolved st = true →
     length (outcomes st) = length (inputFiles st)
     ∧ ∀ i, (i < length (inputFiles st))%nat → resolutions i st = 1%nat)
  ∧ (∀ i code j, j ≠ i →
     phases (step h st (Close i code)) !! j = phases st !! j)
  ∧ (∀ i code, jobs (step h st (Close i code)) = jobs st)
  ∧ (∃ evs', batch_resolved (run h st evs') = true).
Proof.
  intros st.
  destruct (Inv_reachable h args evs) as [Hlen _ _ _ Hitems _ Hset].
  fold st in Hlen, Hitems, Hset.
  split; [|split; [|split; [|split]]].
  - intros i Hi. rewrite <- Hlen in Hi.
    destruct (lookup_lt_is_Some_2 _ _ Hi) as [p Hp].
    destruct (Hitems _ _ Hp) as (_ & _ & -> & _). destruct p; simpl; lia.
  - intros Hres. split.
    + rewrite outcomes_length, Hset, <- Hlen.
      by apply count_phase_all.
    + intros i Hi. rewrite <- Hlen in Hi.
      pose proof (batch_resolved_lookup _ _ Hres Hi) as Hd.
      by destruct (Hitems _ _ Hd) as (_ & _ & -> & _).
  - intros i code j Hne. by apply close_other_phases.
  - intros i code. apply close_jobs.
  - apply can_resolve.
    + apply Inv_reachable.
    + apply Queued_run; [apply Inv_main | apply Queued_main].
Qed.

End Batch.

(** ** Test mode *)

Section DryRun.

Variable h : Host.

Lemma dispatch_test i st :
  testMode st = true →
  let st' := dispatch h i st in
  concurrency st' = concurrency st ∧ jobs st' = jobs st
  ∧ testMode st' = true
  ∧ phases st' = <[i := Done]> (phases st)
  ∧ outcomes st' = outcomes st ++ [(i, JS.Undefined)]
  ∧ spawned st' = spawned st.
Proof.
  intros Ht. unfold dispatch, resolve, log, outcomes, spawned. rewrite Ht.
  destruct (silentMode st) eqn:Hs; simpl; rewrite ?Hs; simpl;
    rewrite ?omap_app; csimpl; by rewrite ?app_nil_r.
Qed.

Lemma dry_executors n : ∀ k st,
  testMode st = true → concurrency st = 0 → jobs st = [] →
  let st' := foldl (fun st i => executor h i st) st (seq k n) in
  concurrency st' = 0 ∧ jobs st' = []
  ∧ length (phases st') = length (phases st)
  ∧ (∀ j, (k <= j < k + n)%nat → (j < length (phases st))%nat →
          phases st' !! j = Some Done)
  ∧ (∀ j, (j < k)%nat → phases st' !! j = phases st !! j)
  ∧ outcomes st'
    = outcomes st ++ List.map (fun i => (i, JS.Undefined)) (seq k n)
  ∧ spawned st' = spawned st.
Proof.
  induction n as [|n IH]; intros k st Ht Hc Hj.
  { simpl. rewrite app_nil_r. repeat split; try done. intros; lia. }
  simpl.
  assert (executor h k st = dispatch h k st) as ->.
  { unfold executor. by rewrite Hc. }
  destruct (dispatch_test k st Ht) as (Hc' & Hj' & Ht' & Hp' & Ho' & Hs').
  rewrite Hc in Hc'. rewrite Hj in Hj'.
  destruct (IH (S k) _ Ht' Hc' Hj') as (C & J & L & P & Q & O & S').
  rewrite Hp', length_insert in L. rewrite Hp' in P, Q.
  repeat split; try done.
  - intros j Hjk Hlt.
    destruct (decide (j = k)) as [->|Hne].
    + rewrite Q by lia. by apply list_lookup_insert_eq.
    + apply P; [lia|]. by rewrite length_insert.
  - intros j Hjk. rewrite Q by lia. apply list_lookup_insert_ne. lia.
  - rewrite O, Ho', <- app_assoc. done.
  - by rewrite S', Hs'.
Qed.

Lemma all_done st :
  (∀ j, (j < length (phases st))%nat → phases st !! j = Some Done) →
  batch_resolved st = true.
Proof.
  intros Hall. unfold batch_resolved. apply forallb_forall.
  intros p [j Hj]%list_elem_of_In%list_elem_of_lookup.
  pose proof (lookup_lt_Some _ _ _ Hj) as Hlt.
  rewrite (Hall j Hlt) in Hj. injection Hj as <-. by apply bool_decide_eq_true.
Qed.

(** Once every file is done and no job is queued, no event changes the
    state any more. *)
Lemma resolved_step st ev :
  batch_resolved st = true → jobs st = [] → step h st ev = st.
Proof.
  intros Hres Hjobs.
  assert (∀ i p, p ≠ Done → phase_is p i st = false) as Hno.
  { intros i p Hp. unfold phase_is. apply bool_decide_eq_false. intros Hi.
    pose proof (lookup_lt_Some _ _ _ Hi) as Hlt.
    rewrite (batch_resolved_lookup _ _ Hres Hlt) in Hi. congruence. }
  destruct ev as [i|i code|i chunk|]; simpl.
  - by rewrite Hno, andb_false_r.
  - by rewrite Hno, andb_false_r.
  - by rewrite Hno, andb_false_r.
  - by rewrite Hjobs.
Qed.

Lemma resolved_run st evs :
  batch_resolved st = true → jobs st = [] → run h st evs = st.
Proof.
  intros Hres Hjobs. induction evs as [|ev evs IH]; [done|].
  simpl. by rewrite resolved_step.
Qed.

Lemma omap_console {B} (f : Action → option B) tr :
  (∀ a, is_console a = true → f a = None) →
  forallb is_console tr = true → omap f tr = [].
Proof.
  intros Hf. induction tr as [|a tr IH]; [done|]. cbn [forallb].
  intros [Ha Htr]%andb_true_iff. csimpl. by rewrite (Hf a Ha), IH.
Qed.

(** C9. In test mode the batch is resolved as soon as [main] has run the
    executors, with one call [resolve()] per file, in order and without
    an error value, and [spawn] is never called; no later event changes
    this. *)
Theorem dry_run_all_success args evs :
  testMode (main h args) = true →
  let st := run h (main h args) evs in
  batch_resolved st = true
  ∧ outcomes st
    = List.map (fun i => (i, JS.Undefined)) (seq 0 (length (inputFiles st)))
  ∧ spawned st = []
  ∧ concurrency st = 0.
Proof.
  intros Ht st.
  destruct (main_shape h args) as (st0 & HF & Hmain & _).
  destruct (foldl_executor_fields h (seq 0 (length (inputFiles st0))) st0)
    as (_ & Ht0 & Hf0).
  rewrite <- Hmain in Ht0, Hf0. rewrite Ht in Ht0.
  destruct HF as (Hc & Hj & Hp & Htr & _).
  destruct (dry_executors (length (inputFiles st0)) 0 st0 (eq_sym Ht0) Hc Hj)
    as (C & J & L & P & _ & O & S').
  rewrite <- Hmain in C, J, L, P, O, S'.
  assert (batch_resolved (main h args) = true) as Hres.
  { apply all_done. intros j Hlt. rewrite L in Hlt.
    apply P; [|done]. rewrite Hp, length_replicate in Hlt. lia. }
  assert (st = main h args) as -> by by apply resolved_run.
  repeat split; try done.
  - rewrite O, Hf0. unfold outcomes.
    rewrite omap_console; [done|by intros []|done].
  - rewrite S'. unfold spawned.
    rewrite omap_console; [done|by intros []|done].
Qed.

End DryRun.

(** ** Flags *)

Section Flags.

Variable h : Host.

Lemma main_help args :
  checkArgsForFlag args "-h" = true →
  main h args = log [JS.Str HELP_TEXT] init.
Proof. intros Hh. unfold main. by rewrite Hh. Qed.



End Flags.

(** ** Where the script departs from its description *)

Lemma classifier_never_true v : JS.Boolean (hack_IsErrorAnError v) = false.
Proof. unfold hack_IsErrorAnError. by destruct (_ && _). Qed.

(** C3. On the four texts of the specification the classifier returns
    [false] for the text that ends in 12.5 and [undefined] for the three
    others, and [undefined] counts as false where the result is tested: no
    text at all is labelled an error. *)
Theorem classifier_on_specified_inputs :
  hack_IsErrorAnError (JS.Str "... 12.5") = JS.Bool false
  ∧ hack_IsErrorAnError (JS.Str "Cannot open input file") = JS.Undefined
  ∧ hack_IsErrorAnError (JS.Str EmptyString) = JS.Undefined
  ∧ hack_IsErrorAnError (JS.Str "... .") = JS.Undefined
  ∧ JS.Boolean JS.Undefined = false
  ∧ ∀ v, JS.Boolean (hack_IsErrorAnError v) = false.
Proof. repeat split; try reflexivity. apply classifier_never_true. Qed.

(** C4. The handler of stderr data leaves the state as it is, whatever the
    text: after the process of the only file has written "Cannot open
    input file", the file is still running, its slot is still taken and no
    outcome is recorded. *)
Theorem stderr_text_changes_nothing :
  (∀ h i chunk st, on_stderr_data i chunk st = st
                   ∧ (phase_is Running i st = true →
                      step h st (StderrData i chunk) = st))
  ∧ let h := demo_host ["a.png"] in
    let st := run h (main h []) [StderrData 0 "Cannot open input file"] in
    phases st = [Running] ∧ concurrency st = 1 ∧ outcomes st = []
    ∧ releases 0 st = 0%nat ∧ batch_resolved st = false.
Proof.
  split; [|by vm_compute].
  intros h i chunk st. split; [reflexivity|]. intros _. simpl.
  by destruct (_ && _).
Qed.

(** C5. In a batch of two files, the process of the second file is given
    the arguments of the first file as well as its own. *)
Theorem second_spawn_has_first_arguments :
  let h := demo_host ["a.png"; "b.png"] in
  let st := main h [] in
  spawned st
  = [ (0%nat, own_argv st "a.png");
      (1%nat, own_argv st "a.png"
                ++ ["-o " +:+ dquote +:+ "output/b.png.webp" +:+ dquote;
                    dquote +:+ "input/b.png" +:+ dquote]) ]
  ∧ spawned st !! 1%nat ≠ Some (1%nat, own_argv st "b.png")
  ∧ BASE_WEBP_SETTINGS st ≠ BASE_WEBP_SETTINGS_init.
Proof. by vm_compute. Qed.

(** C7. The flag [-c] is not read: with [-c 1] two processes are spawned at
    once, and with [-c 5] the fourth file waits for one of three. *)
Theorem flag_c_is_not_read :
  (let h := demo_host ["a.png"; "b.png"] in
   let st := main h ["-c"; "1"] in
   concurrency st = 2 ∧ phases st = [Running; Running]
   ∧ length (spawned st) = 2%nat)
  ∧ (let h := demo_host ["a.png"; "b.png"; "c.png"; "d.png"; "e.png"] in
     let st := main h ["-c"; "5"] in
     concurrency st = 3
     ∧ phases st = [Running; Running; Running; Sleeping; Sleeping]
     ∧ length (spawned st) = 3%nat).
Proof. by vm_compute. Qed.

(** An entry with a whitelisted extension is always kept. *)
Lemma whitelisted_compatible e : whitelisted e = true → compatible e = true.
Proof.
  unfold whitelisted, compatible, COMPATIBLE_FILE_EXTS.
  rewrite bool_decide_eq_true, !elem_of_cons, elem_of_nil.
  intros [-> | [-> | [-> | []]]]; reflexivity.
Qed.

Example enumerator_scenario :
  inputFiles_of ["a.png"; "b.txt"; "c.jpeg"] = ["a.png"; "c.jpeg"].
Proof. reflexivity. Qed.

(** C8. The filter keeps an entry when the text after its last dot occurs
    inside a whitelisted extension: [b.p], [notes.] and [g] are kept next
    to [a.png] and [c.jpeg], though none of their extensions is
    whitelisted. *)
Theorem filter_keeps_parts_of_extensions :
  inputFiles_of ["a.png"; "b.p"; "c.jpeg"; "notes."; "g"; "d.txt"]
  = ["a.png"; "b.p"; "c.jpeg"; "notes."; "g"]
  ∧ whitelisted "b.p" = false ∧ whitelisted "notes." = false
  ∧ whitelisted "g" = false
  ∧ inputFiles_of ["a.png"; "b.txt"; "c.jpeg"] = ["a.png"; "c.jpeg"].
Proof. by vm_compute. Qed.

(** ** The theorems on concrete batches *)

(** Five files: three processes start at once; when one closes, a waiting
    file takes its place, and the last file goes back to sleep. *)
Example gate_lets_three_run :
  let h := demo_host ["a.png"; "b.png"; "c.png"; "d.png"; "e.png"] in
  let st := run h (main h [])
              [Close 1 (Some 0); Timer 3; RunJob; RunJob; Timer 4; RunJob] in
  phases (main h []) = [Running; Running; Running; Sleeping; Sleeping]
  ∧ phases st = [Running; Done; Running; Running; Sleeping]
  ∧ concurrency st = 3.
Proof. by vm_compute. Qed.

(** The bound of the gate rests on the jobs of a callback running before
    the next callback: [retry] reads the counter in one job and the
    executor raises it in a later one. If two timers fire before those
    jobs run, both files see a free slot and four processes run. *)
Remark early_timers_overshoot :
  let h := demo_host ["a.png"; "b.png"; "c.png"; "d.png"; "e.png"] in
  let st1 := run h (main h []) [Close 0 (Some 0); Timer 3] in
  let st2 := run h (fire_timer_early 4 st1) [RunJob; RunJob; RunJob; RunJob] in
  concurrency st1 = 2 ∧ concurrency st2 = 4
  ∧ phases st2 = [Done; Running; Running; Running; Running].
Proof. by vm_compute. Qed.

(** One file whose process writes to stderr and then exits with code 1. *)
Lemma slot_released_exactly_once_witness :
  let h := demo_host ["a.png"] in
  let st := run h (main h [])
              [StderrData 0 "Error: bad file"; Close 0 (Some 1)] in
  testMode st = false ∧ (0 < length (inputFiles st))%nat
  ∧ acquires 0 st = 1%nat ∧ releases 0 st = 1%nat
  ∧ total_releases st = total_acquires st
  ∧ concurrency st = 0.
Proof.
  intros h st.
  assert (Ht : testMode st = false) by reflexivity.
  assert (Hi : (0 < length (inputFiles st))%nat) by (vm_compute; lia).
  destruct (slot_released_exactly_once h []
              [StderrData 0 "Error: bad file"; Close 0 (Some 1)] 0%nat Ht Hi)
    as (_ & _ & _ & _ & Hres & _).
  destruct (Hres eq_refl) as (A & R & T & C).
  repeat split; assumption.
Defined.

Lemma one_outcome_per_file_witness :
  let h := demo_host ["a.png"] in
  let st := run h (main h [])
              [StderrData 0 "Error: bad file"; Close 0 (Some 1)] in
  batch_resolved st = true ∧ length (outcomes st) = 1%nat
  ∧ resolutions 0 st = 1%nat.
Proof.
  intros h st.
  destruct (one_outcome_per_file h []
              [StderrData 0 "Error: bad file"; Close 0 (Some 1)])
    as (_ & Hres & _).
  destruct (Hres eq_refl) as (Hlen & Hone).
  split; [reflexivity|]. split; [exact Hlen|]. apply Hone. vm_compute. lia.
Defined.

(** Ten files in test mode. *)
Lemma dry_run_all_success_witness :
  let h := demo_host ["0.png"; "1.png"; "2.png"; "3.png"; "4.png";
                      "5.jpg"; "6.jpg"; "7.jpg"; "8.jpeg"; "9.jpeg"] in
  let st := run h (main h ["-t"]) [Timer 3; RunJob; Close 0 (Some 0)] in
  testMode (main h ["-t"]) = true
  ∧ batch_resolved st = true
  ∧ length (outcomes st) = 10%nat
  ∧ spawned st = [].
Proof.
  intros h st.
  assert (Ht : testMode (main h ["-t"]) = true) by reflexivity.
  destruct (dry_run_all_success h ["-t"] [Timer 3; RunJob; Close 0 (Some 0)] Ht)
    as (Hres & Hout & Hsp & _).
  split; [exact Ht|]. split; [exact Hres|]. split; [|exact Hsp].
  fold st in Hout. rewrite Hout. reflexivity.
Defined.


(** ** The extension filter and the classifier on arbitrary texts *)

Lemma prefix_iff a b : String.prefix a b = true ↔ ∃ post, b = a +:+ post.
Proof.
  revert b. induction a as [|c a IH]; intros b.
  - split; [|by destruct b]. intros _. by exists b.
  - destruct b as [|d b]; simpl.
    + split; [done|]. by intros [post ?].
    + destruct (ascii_dec c d) as [->|Hne].
      * rewrite IH. split; intros [post Hp]; exists post.
        -- simpl. by rewrite Hp.
        -- simpl in Hp. by injection Hp.
      * split; [done|]. intros [post Hp]. simpl in Hp. by injection Hp.
Qed.

Lemma indexOf_from_found needle hay pos :
  JS.indexOf_from needle hay pos ≠ -1 → occurs_in needle hay.
Proof.
  revert pos. induction hay as [|c hay IH]; intros pos;
    rewrite indexOf_from_unfold;
    destruct (String.prefix needle _) eqn:Hp; try done.
  - intros _. apply prefix_iff in Hp as [post ->]. by exists EmptyString, post.
  - intros _. apply prefix_iff in Hp as [post ->]. by exists EmptyString, post.
  - intros (pre & post & ->)%IH. by exists (String c pre), post.
Qed.

Lemma indexOf_from_occurs needle pre post pos :
  0 <= pos → JS.indexOf_from needle (pre +:+ needle +:+ post) pos ≠ -1.
Proof.
  revert pos. induction pre as [|c pre IH]; intros pos Hpos.
  - change (EmptyString +:+ needle +:+ post) with (needle +:+ post).
    rewrite indexOf_from_unfold.
    rewrite (proj2 (prefix_iff needle (needle +:+ post))) by eauto. lia.
  - change (String c pre +:+ needle +:+ post)
      with (String c (pre +:+ needle +:+ post)).
    rewrite indexOf_from_unfold.
    destruct (String.prefix needle _); [lia|]. apply IH. lia.
Qed.

(** [hay.indexOf(needle) !== -1] says that [needle] occurs in [hay]. *)
Lemma indexOf_occurs hay needle :
  JS.indexOf hay needle ≠ -1 ↔ occurs_in needle hay.
Proof.
  split; [apply indexOf_from_found|].
  intros (pre & post & ->). by apply indexOf_from_occurs.
Qed.

Lemma findIndex_from_found {A} (p : A → bool) l pos :
  0 <= pos → JS.findIndex_from p l pos ≠ -1 ↔ ∃ x, x ∈ l ∧ p x = true.
Proof.
  revert pos. induction l as [|x l IH]; intros pos Hpos; simpl.
  - split; [done|]. intros (x & Hx & _). by apply elem_of_nil in Hx.
  - destruct (p x) eqn:Hpx.
    + split; [|lia]. intros _. exists x. split; [apply list_elem_of_here|done].
    + rewrite IH by lia. split.
      * intros (y & Hy & Hp). exists y. split; [by apply list_elem_of_further|done].
      * intros (y & Hy & Hp). apply elem_of_cons in Hy as [->|Hy]; [congruence|].
        by exists y.
Qed.

Lemma compatible_iff e :
  compatible e = true
  ↔ ∃ ext, ext ∈ COMPATIBLE_FILE_EXTS ∧ occurs_in (eExt e) ext.
Proof.
  unfold compatible, JS.findIndex.
  rewrite negb_true_iff, Z.eqb_neq, findIndex_from_found by lia.
  split; intros (ext & Hin & Hp); exists ext; (split; [done|]).
  - apply indexOf_occurs. by apply negb_true_iff, Z.eqb_neq in Hp.
  - apply negb_true_iff, Z.eqb_neq. by apply indexOf_occurs.
Qed.

(** X1. An entry is kept exactly when the text after its last dot,
    lower-cased, occurs somewhere inside [png], [jpg] or [jpeg]; so an
    entry whose extension is longer than four code units is never kept. *)
Theorem compatible_iff_part_of_extension e :
  (compatible e = true
   ↔ ∃ ext, ext ∈ COMPATIBLE_FILE_EXTS ∧ occurs_in (eExt e) ext)
  ∧ ((4 < String.length (eExt e))%nat → compatible e = false).
Proof.
  pose proof (compatible_iff e) as Hiff.
  split; [done|]. intros Hlen.
  apply not_true_is_false. intros Hc.
  apply Hiff in Hc as (ext & Hin & pre & post & Hext).
  assert ((String.length ext <= 4)%nat) as Hle.
  { unfold COMPATIBLE_FILE_EXTS in Hin.
    rewrite !elem_of_cons, elem_of_nil in Hin.
    destruct Hin as [-> | [-> | [-> | []]]]; simpl; lia. }
  rewrite Hext in Hle.
  assert (∀ a b, String.length (a +:+ b)
                 = (String.length a + String.length b)%nat) as Happ.
  { intros a b. induction a as [|c a IH]; simpl; [done|]. by rewrite IH. }
  rewrite !Happ in Hle. lia.
Qed.

Lemma length_append a b :
  String.length (a +:+ b) = (String.length a + String.length b)%nat.
Proof. induction a as [|c a IH]; simpl; [done|]. by rewrite IH. Qed.

Lemma append_assoc a b c : (a +:+ b) +:+ c = a +:+ b +:+ c.
Proof.
  induction a as [|d a IH]; [done|].
  change (String d ((a +:+ b) +:+ c) = String d (a +:+ b +:+ c)). by f_equal.
Qed.

Lemma length_toLowerCase s : String.length (JS.toLowerCase s) = String.length s.
Proof. induction s as [|c s IH]; simpl; [done|]. by rewrite IH. Qed.

Lemma toLowerCase_app a b :
  JS.toLowerCase (a +:+ b) = JS.toLowerCase a +:+ JS.toLowerCase b.
Proof. induction a as [|c a IH]; simpl; [done|]. by rewrite IH. Qed.

Lemma skip_app a b : JS.skip (String.length a) (a +:+ b) = b.
Proof. induction a as [|c a IH]; simpl; [by destruct b|done]. Qed.

Lemma lastIndexOf_from_unfold needle hay pos :
  JS.lastIndexOf_from needle hay pos
  = let here := if String.prefix needle hay then pos else -1 in
    match hay with
    | EmptyString => here
    | String _ hay' =>
        let later := JS.lastIndexOf_from needle hay' (pos + 1) in
        if later =? -1 then here else later
    end.
Proof. by destruct hay. Qed.

Lemma prefix_char c s :
  String.prefix (String c EmptyString) s
  = match s with String d _ => Ascii.eqb d c | EmptyString => false end.
Proof.
  destruct s as [|d s]; [done|]. simpl.
  destruct (ascii_dec c d) as [->|Hne].
  - rewrite Ascii.eqb_refl. by destruct s.
  - symmetry. apply Ascii.eqb_neq. congruence.
Qed.

Lemma lastIndexOf_from_none c s pos :
  contains_char c s = false →
  JS.lastIndexOf_from (String c EmptyString) s pos = -1.
Proof.
  revert pos. induction s as [|d s IH]; intros pos Hc;
    rewrite lastIndexOf_from_unfold, prefix_char; [done|].
  simpl in Hc. apply orb_false_iff in Hc as [Hd Hs].
  cbv zeta. by rewrite IH, Hd.
Qed.

Lemma lastIndexOf_from_last c base ext pos :
  0 <= pos → contains_char c ext = false →
  JS.lastIndexOf_from (String c EmptyString) (base +:+ String c ext) pos
  = pos + Z.of_nat (String.length base).
Proof.
  revert pos. induction base as [|d base IH]; intros pos Hpos Hc.
  - change (EmptyString +:+ String c ext) with (String c ext).
    rewrite lastIndexOf_from_unfold, prefix_char, Ascii.eqb_refl. cbv zeta.
    rewrite lastIndexOf_from_none by done. simpl. lia.
  - change (String d base +:+ String c ext)
      with (String d (base +:+ String c ext)).
    rewrite lastIndexOf_from_unfold. cbv zeta. rewrite IH by (done || lia).
    destruct (Z.eqb_spec (pos + 1 + Z.of_nat (String.length base)) (-1)); [lia|].
    simpl String.length. lia.
Qed.

(** X2. A name of ASCII characters that ends in a dot and [png], [jpg]
    or [jpeg], in whatever case, has that extension and is kept, dots
    before the last one included. The name is ASCII so that lower-casing
    keeps every character at its place: the position of the last dot is
    taken in the name as given and used in the lower-cased name. *)
Theorem whitelisted_name_is_kept base ext :
  ascii_text (base +:+ "." +:+ ext) = true →
  contains_char "." ext = false →
  JS.toLowerCase ext ∈ COMPATIBLE_FILE_EXTS →
  eExt (base +:+ "." +:+ ext) = JS.toLowerCase ext
  ∧ String.length (JS.toLowerCase (base +:+ "." +:+ ext))
    = String.length (base +:+ "." +:+ ext)
  ∧ compatible (base +:+ "." +:+ ext) = true.
Proof.
  intros _ Hdot Hin.
  assert (eExt (base +:+ "." +:+ ext) = JS.toLowerCase ext) as Hext.
  { unfold eExt, JS.lastIndexOf, JS.substr.
    change ("." +:+ ext) with (String "." ext).
    rewrite lastIndexOf_from_last by done.
    rewrite length_toLowerCase, length_append. simpl String.length.
    destruct (Z.ltb_spec (0 + Z.of_nat (String.length base) + 1) 0); [lia|].
    rewrite Z.min_l by lia.
    replace (Z.to_nat (0 + Z.of_nat (String.length base) + 1))
      with (String.length (JS.toLowerCase (base +:+ "."))).
    - change (String "." ext) with ("." +:+ ext).
      replace (base +:+ "." +:+ ext) with ((base +:+ ".") +:+ ext).
      + by rewrite !toLowerCase_app, skip_app.
      + apply append_assoc.
    - rewrite length_toLowerCase, length_append. simpl. lia. }
  split; [done|]. split; [apply length_toLowerCase|].
  apply whitelisted_compatible. unfold whitelisted. rewrite Hext.
  by apply bool_decide_eq_true.
Qed.

(** X3. An entry without a dot has its whole lower-cased name as
    extension, so it is kept exactly when that name occurs inside [png],
    [jpg] or [jpeg]. *)
Theorem dotless_entry_is_its_own_extension e :
  contains_char "." e = false →
  eExt e = JS.toLowerCase e
  ∧ (compatible e = true
     ↔ ∃ ext, ext ∈ COMPATIBLE_FILE_EXTS ∧ occurs_in (JS.toLowerCase e) ext).
Proof.
  intros Hdot.
  assert (eExt e = JS.toLowerCase e) as Hext.
  { unfold eExt, JS.lastIndexOf, JS.substr.
    rewrite lastIndexOf_from_none by done. simpl.
    by rewrite Z.min_l by lia. }
  split; [done|]. rewrite <- Hext.
  apply compatible_iff.
Qed.

Lemma split_nonempty sep s : JS.split sep s ≠ [].
Proof.
  induction s as [|c s IH]; simpl; [done|].
  destruct (Ascii.eqb c sep); [done|]. by destruct (JS.split sep s).
Qed.

Lemma split_app sep s t :
  JS.split sep (s +:+ String sep t) = JS.split sep s ++ JS.split sep t.
Proof.
  induction s as [|c s IH].
  - change (EmptyString +:+ String sep t) with (String sep t).
    simpl. by rewrite Ascii.eqb_refl.
  - change (String c s +:+ String sep t) with (String c (s +:+ String sep t)).
    simpl. rewrite IH.
    pose proof (split_nonempty sep s) as Hne.
    destruct (Ascii.eqb c sep); [done|].
    by destruct (JS.split sep s).
Qed.

Lemma split_none sep t : contains_char sep t = false → JS.split sep t = [t].
Proof.
  induction t as [|c t IH]; [done|]. simpl.
  intros [Hc Ht]%orb_false_iff. by rewrite Hc, IH.
Qed.

Lemma last_app_nonempty {A} (l1 l2 : list A) d :
  l2 ≠ [] → List.last (l1 ++ l2) d = List.last l2 d.
Proof.
  intros Hne. induction l1 as [|x l1 IH]; [done|].
  simpl. destruct (l1 ++ l2) eqn:Happ; [|done].
  by apply app_eq_nil in Happ as [_ ->].
Qed.

Lemma last_token_decides s t :
  contains_char " " t = false →
  hack_IsErrorAnError (JS.Str (s +:+ " " +:+ t)) = hack_IsErrorAnError (JS.Str t).
Proof.
  intros Ht. unfold hack_IsErrorAnError.
  change (" " +:+ t) with (String " " t).
  rewrite !split_app, !last_app_nonempty by apply split_nonempty.
  by rewrite (split_none " " t Ht).
Qed.

(** X4. Only the text after the last space decides: a text and its last
    space-separated token are classified alike, and a text that ends in a
    space is never benign. *)
Theorem classifier_reads_last_token s t :
  contains_char " " t = false →
  hack_IsErrorAnError (JS.Str (s +:+ " " +:+ t)) = hack_IsErrorAnError (JS.Str t)
  ∧ hack_IsErrorAnError (JS.Str (s +:+ " ")) = JS.Undefined.
Proof.
  intros Ht. split; [by apply last_token_decides|].
  unfold hack_IsErrorAnError.
  change (s +:+ " ") with (s +:+ String " " EmptyString).
  by rewrite !split_app, !last_app_nonempty by apply split_nonempty.
Qed.

Lemma contains_char_occurs c s :
  contains_char c s = true → occurs_in (String c EmptyString) s.
Proof.
  induction s as [|d s IH]; [done|]. simpl.
  destruct (Ascii.eqb_spec d c) as [->|Hne]; simpl.
  - intros _. by exists EmptyString, s.
  - intros (pre & post & ->)%IH. by exists (String d pre), post.
Qed.

Lemma digit_not_white c : JS.is_digit c = true → JS.is_white c = false.
Proof.
  unfold JS.is_digit, JS.is_white.
  intros [H1 H2]%andb_true_iff. apply Z.leb_le in H1, H2.
  repeat (apply orb_false_iff; split); try apply andb_false_iff;
    rewrite ?Z.leb_gt, ?Z.eqb_neq; lia.
Qed.

Lemma parseFloat_digit c rest :
  JS.is_digit c = true → JS.isNaN (JS.parseFloat (String c rest)) = false.
Proof.
  intros Hd. pose proof (digit_not_white c Hd) as Hw.
  pose proof Hd as [H1 H2]%andb_true_iff. apply Z.leb_le in H1, H2.
  unfold JS.parseFloat. simpl JS.trimStart. rewrite Hw.
  unfold JS.sign.
  destruct (Z.eqb_spec (JS.code c) 43); [lia|].
  destruct (Z.eqb_spec (JS.code c) 45); [lia|]. simpl orb. cbv iota.
  assert (String.prefix "Infinity" (String c rest) = false) as ->.
  { destruct (String.prefix "Infinity" (String c rest)) eqn:Hp; [|done].
    apply prefix_iff in Hp as [post Hp]. simpl in Hp. injection Hp as -> _.
    by vm_compute in Hd. }
  simpl JS.digits. rewrite Hd.
  destruct (JS.digits rest) as [d r].
  destruct r as [|x r2]; [done|].
  destruct x as [[] [] [] [] [] [] [] []]; try done.
  by destruct (JS.digits r2).
Qed.

(** X5. A last token that begins with a digit and has a dot in it is
    benign, whatever follows the digit: version numbers, addresses and
    file names that begin with a digit all pass. *)
Theorem digit_dot_token_is_benign s c rest :
  JS.is_digit c = true →
  contains_char " " rest = false →
  contains_char "." rest = true →
  hack_IsErrorAnError (JS.Str (String c rest)) = JS.Bool false
  ∧ hack_IsErrorAnError (JS.Str (s +:+ " " +:+ String c rest)) = JS.Bool false.
Proof.
  intros Hd Hsp Hdot.
  assert (contains_char " " (String c rest) = false) as Htok.
  { simpl. apply orb_false_iff. split; [|done].
    apply Ascii.eqb_neq. intros ->. discriminate Hd. }
  assert (hack_IsErrorAnError (JS.Str (String c rest)) = JS.Bool false) as Hb.
  { unfold hack_IsErrorAnError. rewrite (split_none " " _ Htok).
    cbn [List.last]. rewrite parseFloat_digit by done.
    assert (JS.indexOf (String c rest) "." ≠ -1) as Hi.
    { apply indexOf_occurs.
      destruct (contains_char_occurs "." rest Hdot) as (pre & post & ->).
      by exists (String c pre), post. }
    apply Z.eqb_neq in Hi. by rewrite Hi. }
  split; [done|].
  by rewrite (last_token_decides s _ Htok).
Qed.

(** ** What holds of every run *)

Section Reach.

Variable h : Host.

(** A property kept by the executor after the gate, by the close handler
    and by the bookkeeping of phases and jobs is kept by every executor
    and by every event. *)
Lemma lift_executor (P : State → Prop) :
  (∀ st i, P st → P (dispatch h i st)) →
  (∀ st i p, P st → P (set_phase i p st)) →
  (∀ st js, P st → P (set_jobs js st)) →
  ∀ st i, P st → P (executor h i st).
Proof.
  intros Hd Hp Hj st i HP. unfold executor, retry, enqueue.
  destruct (_ <=? _); [|by apply Hd].
  destruct (_ <? _); [apply Hj|]; by apply Hp.
Qed.

Lemma lift_step (P : State → Prop) :
  (∀ st i, P st → P (dispatch h i st)) →
  (∀ st i code, P st → P (on_close i code st)) →
  (∀ st i p, P st → P (set_phase i p st)) →
  (∀ st js, P st → P (set_jobs js st)) →
  ∀ st ev, P st → P (step h st ev).
Proof.
  intros Hd Hc Hp Hj st ev HP. destruct ev as [i|i code|i chunk|]; simpl.
  - destruct (_ && _); [|done]. unfold enqueue. by apply Hj, Hp.
  - destruct (_ && _); [|done]. by apply Hc.
  - rewrite on_stderr_data_same. by destruct (_ && _).
  - destruct (jobs st) as [|[i|i] js]; [done|..]; simpl.
    + unfold retry, enqueue. destruct (_ <? _); [apply Hj|]; by apply Hp, Hj.
    + by apply Hd, Hj.
Qed.

Lemma lift_reachable (P : State → Prop) :
  (∀ st i, P st → P (dispatch h i st)) →
  (∀ st i code, P st → P (on_close i code st)) →
  (∀ st i p, P st → P (set_phase i p st)) →
  (∀ st js, P st → P (set_jobs js st)) →
  ∀ st0 l evs,
    P st0 → P (run h (foldl (fun st i => executor h i st) st0 l) evs).
Proof.
  intros Hd Hc Hp Hj st0 l evs HP.
  assert (P (foldl (fun st i => executor h i st) st0 l)) as HP'.
  { revert st0 HP. induction l as [|i l IH]; intros st0 HP; [done|].
    simpl. apply IH. by apply lift_executor. }
  revert HP'. generalize (foldl (fun st i => executor h i st) st0 l).
  induction evs as [|ev evs IH]; intros st HP'; [done|].
  simpl. apply IH. by apply lift_step.
Qed.

End Reach.

Section Traces.

Variable h : Host.

Lemma wf_emit a st :
  wf_trace h st → wf_action h (silentMode st) (testMode st) a →
  wf_trace h (emit a st).
Proof.
  unfold wf_trace. simpl. intros Htr Ha. apply Forall_app. by split; [|constructor].
Qed.

Lemma wf_log args st : wf_trace h st → wf_trace h (log args st).
Proof.
  intros Htr. unfold log. destruct (silentMode st) eqn:Hs; [done|].
  apply wf_emit; [done|]. simpl. done.
Qed.

Lemma wf_dispatch st i : wf_trace h st → wf_trace h (dispatch h i st).
Proof.
  intros Htr. unfold dispatch, resolve.
  destruct (testMode st) eqn:Ht; simpl.
  - change (wf_trace h (set_phase i Done
              (log [JS.Str ("Generated " +:+ file i st +:+ ".webp")]
                 (emit (Resolve i JS.Undefined) st)))).
    assert (∀ st', wf_trace h st' → wf_trace h (set_phase i Done st')) as Hp
      by done.
    apply Hp, wf_log, wf_emit; done.
  - unfold wf_trace, log in *. simpl. rewrite Ht in Htr.
    destruct (silentMode st) eqn:Hs; simpl; rewrite ?Hs, ?Ht;
      repeat (apply Forall_app; split); try done;
      repeat constructor; done.
Qed.

Lemma wf_on_close st i code : wf_trace h st → wf_trace h (on_close i code st).
Proof.
  intros Htr. unfold wf_trace, on_close, resolve, log in *.
  destruct (bool_decide _), (silentMode st) eqn:Hs; simpl; rewrite ?Hs;
    simpl; rewrite ?Hs; simpl;
    repeat (apply Forall_app; split); try done;
    repeat constructor; done.
Qed.

Lemma wf_error_unless v fmt rest st :
  fmt ≠ stderr_error_format → wf_trace h st →
  wf_trace h (error_unless v (JS.Str fmt :: rest) st).
Proof.
  intros Hf Htr. unfold error_unless. destruct (JS.Boolean v); [done|].
  by apply wf_emit.
Qed.

Lemma prefix_nil s : String.prefix EmptyString s = true.
Proof. by destruct s. Qed.

Lemma logs_emit_error args st : logs (emit (Error args) st) = logs st.
Proof. unfold logs. simpl. rewrite omap_app. csimpl. by rewrite app_nil_r. Qed.

Lemma logs_log args st :
  logs (log args st) = logs st ++ (if silentMode st then [] else [args]).
Proof.
  unfold log, logs. destruct (silentMode st); [by rewrite app_nil_r|].
  simpl. by rewrite omap_app.
Qed.

Lemma logs_error_unless v args st : logs (error_unless v args st) = logs st.
Proof.
  unfold error_unless. destruct (JS.Boolean v); [done|]. apply logs_emit_error.
Qed.

(** [main] up to the first executor, with what it has printed. *)
Lemma main_prologue args :
  ∃ st0,
    Fresh st0
    ∧ main h args
      = foldl (fun st i => executor h i st) st0
          (seq 0 (length (inputFiles st0)))
    ∧ wf_trace h st0
    ∧ Forall (fun l => is_generated l = false) (logs st0).
Proof.
  unfold main. destruct (checkArgsForFlag args "-h").
  { exists (log [JS.Str HELP_TEXT] init).
    split; [apply Fresh_log; repeat split; reflexivity|].
    split; [by rewrite inputFiles_log|]. split; [apply wf_log; constructor|].
    rewrite logs_log. simpl. by repeat constructor. }
  cbv zeta.
  match goal with
  | |- context [set_directories ?i ?o ?s] =>
      generalize i o; intros input output
  end.
  assert (∀ s t, wf_trace h (log [JS.Str "Platform is %s"; JS.Str (osType h)]
                   (set_directories input output (set_flags s t init))))
    as Hwf.
  { intros s t. apply wf_log. constructor. }
  assert (∀ s t, Forall (fun l => is_generated l = false)
                   (logs (log [JS.Str "Platform is %s"; JS.Str (osType h)]
                      (set_directories input output (set_flags s t init)))))
    as Hlogs.
  { intros s t. rewrite logs_log. simpl. destruct s; by repeat constructor. }
  match goal with |- context [if ?c then _ else _] => destruct c end.
  - match goal with |- ∃ st0, _ ∧ ?s = _ ∧ _ => exists s end.
    split; [|split; [|split]].
    + repeat apply Fresh_error_unless. apply Fresh_log. repeat split; reflexivity.
    + by rewrite !inputFiles_error_unless, inputFiles_log.
    + repeat (apply wf_error_unless; [done|]). apply Hwf.
    + rewrite !logs_error_unless. apply Hlogs.
  - match goal with
    | |- context [foldl _ ?s (seq 0 (length (inputFiles ?s)))] =>
        exists s
    end.
    split; [|split; [done|split]].
    + match goal with |- context [if ?c then _ else _] => destruct c end.
      * apply Fresh_emit; [done|]. apply Fresh_set_inputFiles.
        apply Fresh_log. repeat split; reflexivity.
      * apply Fresh_log. apply Fresh_set_inputFiles.
        apply Fresh_log. repeat split; reflexivity.
    + assert (∀ files st, wf_trace h st → wf_trace h (set_inputFiles files st))
        as Hfiles by done.
      match goal with |- context [if ?c then _ else _] => destruct c end.
      * apply wf_emit; [by apply Hfiles|]. simpl. done.
      * by apply wf_log, Hfiles.
    + assert (∀ files st, logs (set_inputFiles files st) = logs st) as Hfiles
        by done.
      match goal with |- context [if ?c then _ else _] => destruct c end.
      * rewrite logs_emit_error, Hfiles. apply Hlogs.
      * rewrite logs_log, Hfiles. apply Forall_app. split; [apply Hlogs|].
        destruct (silentMode _); by repeat constructor.
Qed.

Lemma wf_reachable args evs : wf_trace h (run h (main h args) evs).
Proof.
  destruct (main_prologue args) as (st0 & _ & -> & Hwf & _).
  apply (lift_reachable h (wf_trace h)); try done.
  - intros st i. apply wf_dispatch.
  - intros st i code. apply wf_on_close.
Qed.

Lemma flags_reachable args evs :
  silentMode (run h (main h args) evs) = silentMode (main h args)
  ∧ testMode (run h (main h args) evs) = testMode (main h args)
  ∧ inputFiles (run h (main h args) evs) = inputFiles (main h args)
  ∧ inputDirectory (run h (main h args) evs) = inputDirectory (main h args)
  ∧ outputDirectory (run h (main h args) evs) = outputDirectory (main h args).
Proof.
  generalize (main h args) as st.
  induction evs as [|ev evs IH]; intros st; [done|]. simpl.
  destruct (IH (step h st ev)) as (-> & -> & -> & -> & ->). clear IH.
  apply (lift_step h (fun st' =>
           silentMode st' = silentMode st ∧ testMode st' = testMode st
           ∧ inputFiles st' = inputFiles st
           ∧ inputDirectory st' = inputDirectory st
           ∧ outputDirectory st' = outputDirectory st)); try done.
  - intros st' i (<- & <- & <- & <- & <-).
    destruct (dispatch_fields h i st') as (? & ? & ? & ? & ? & _). done.
  - intros st' i code (<- & <- & <- & <- & <-).
    unfold on_close, resolve, log.
    destruct (bool_decide _), (silentMode st') eqn:Hs; simpl; by rewrite ?Hs.
Qed.

(** X6. In silent mode nothing at all is printed with
    [console.log], in no state of the run; what goes to [console.error] is
    not held back: a close with a code other than 0 still prints its
    message. *)
Theorem silent_mode_logs_nothing args evs :
  silentMode (main h args) = true →
  let st := run h (main h args) evs in
  logs st = []
  ∧ ∀ i code, code ≠ Some 0 →
      errors (on_close i code st)
      = errors st
          ++ [[JS.Str "Non-zero process exit code %i on file '%s'";
               from_option JS.Num JS.Null code; JS.Str (file i st)]].
Proof.
  intros Hs st.
  assert (silentMode st = true) as Hs'.
  { unfold st. by rewrite (proj1 (flags_reachable args evs)). }
  split.
  - pose proof (wf_reachable args evs) as Hwf. fold st in Hwf.
    unfold wf_trace in Hwf. rewrite Hs' in Hwf. unfold logs.
    induction Hwf as [|a tr Ha _ IH]; [done|].
    csimpl. rewrite IH. by destruct a.
  - intros i code Hc. unfold errors, on_close, resolve, log.
    rewrite bool_decide_eq_false_2 by done. simpl. rewrite Hs'. simpl.
    rewrite <- !app_assoc, omap_app. by csimpl.
Qed.

(** X7. [resolve] is only ever called without a value, so no
    file is reported with warnings, and the message of the [stderr]
    handler is never printed. *)
Theorem outcomes_never_carry_text args evs :
  let st := run h (main h args) evs in
  Forall (fun o => o.2 = JS.Undefined) (outcomes st)
  ∧ Forall (fun e => head e ≠ Some (JS.Str stderr_error_format)) (errors st).
Proof.
  intros st. pose proof (wf_reachable args evs) as Hwf. fold st in Hwf.
  unfold wf_trace in Hwf. unfold outcomes, errors.
  induction Hwf as [|a tr Ha _ [IH1 IH2]]; [by split|].
  split; destruct a; csimpl; try done; constructor; try done.
  simpl in Ha. destruct args0 as [|[] ?]; simpl; congruence.
Qed.

(** X8. Every process is started from the one path [cwebpPath], which is
    [bin/cwebp] under the working directory whatever the arguments are (the
    third argument, which the usage line calls the path to cwebp, is not
    read), through a shell exactly on win32, and never in test mode. *)
Theorem spawns_use_cwebp args evs :
  let st := run h (main h args) evs in
  ∀ i command argv shell,
    Spawn i command argv shell ∈ trace st →
    command = cwebpPath h
    ∧ shell = String.eqb (osType h) "win32"
    ∧ testMode st = false.
Proof.
  intros st i command argv shell Hin.
  pose proof (wf_reachable args evs) as Hwf. fold st in Hwf.
  unfold wf_trace in Hwf. rewrite Forall_forall in Hwf.
  destruct (Hwf _ Hin) as (? & ? & ?). done.
Qed.

(** X9. Outside silent mode, the lines that begin with
    "Generated " are exactly one line per call of [resolve], in the same
    order and with the name of the file: a file is announced as generated
    once it is done, whatever the exit code of its process, and also in
    test mode, where nothing was generated. *)
Theorem every_outcome_is_announced args evs :
  silentMode (main h args) = false →
  let st := run h (main h args) evs in
  List.filter is_generated (logs st)
  = List.map (fun o => generated_line st o.1) (outcomes st).
Proof.
  intros Hs st.
  assert (silentMode st = false) as Hs'.
  { unfold st. by rewrite (proj1 (flags_reachable args evs)). }
  assert (inputFiles st = inputFiles (main h args)) as Hf.
  { unfold st. apply flags_reachable. }
  revert Hs'. unfold generated_line, file. rewrite Hf. unfold st.
  destruct (main_prologue args) as (st0 & HF & Hmain & _ & Hlogs).
  destruct (foldl_executor_fields h (seq 0 (length (inputFiles st0))) st0)
    as (_ & _ & Hf0).
  rewrite Hmain, Hf0.
  apply (lift_reachable h (fun st' =>
           inputFiles st' = inputFiles st0 ∧
           (silentMode st' = false →
            List.filter is_generated (logs st')
            = List.map (fun o => [JS.Str ("Generated "
                         +:+ default EmptyString (inputFiles st0 !! o.1)
                         +:+ ".webp")]) (outcomes st')))); try done.
  - intros st' i [Hfi HP].
    destruct (dispatch_fields h i st') as (Hsil & _ & _ & _ & Hfiles & _).
    split; [congruence|]. rewrite Hsil. intros Hq. specialize (HP Hq).
    revert HP. unfold dispatch, resolve, log, logs, outcomes, file.
    destruct (testMode st'); simpl; rewrite ?Hq; simpl;
      rewrite ?omap_app; csimpl; rewrite ?app_nil_r, ?List.filter_app,
        ?List.map_app; simpl; intros ->;
      by rewrite ?prefix_nil, ?app_nil_r, ?Hfi.
  - intros st' i code [Hfi HP].
    assert (silentMode (on_close i code st') = silentMode st'
            ∧ inputFiles (on_close i code st') = inputFiles st') as [Hsil Hfiles].
    { unfold on_close, resolve, log.
      destruct (bool_decide _), (silentMode st') eqn:Hq; simpl; by rewrite ?Hq. }
    split; [congruence|]. rewrite Hsil. intros Hq. specialize (HP Hq).
    revert HP. unfold on_close, resolve, log, logs, outcomes, file.
    destruct (bool_decide _); simpl; rewrite ?Hq; simpl;
      rewrite ?omap_app; csimpl; rewrite ?app_nil_r, ?List.filter_app,
        ?List.map_app; simpl; intros ->;
      by rewrite ?prefix_nil, ?app_nil_r, ?Hfi.
  - split; [done|]. intros _.
    destruct HF as (_ & _ & _ & Htr & _).
    unfold outcomes. rewrite omap_console; [|by intros []|done]. simpl.
    induction Hlogs as [|l ls Hl _ IH]; [done|]. simpl. by rewrite Hl.
Qed.

End Traces.

(** ** The one argument list of all processes *)

Section Arguments.

Variable h : Host.

Lemma accumulate_snoc f base order i :
  accumulate f base (order ++ [i])
  = accumulate f base order ++ [(i, base ++ flat_map f order ++ f i)].
Proof.
  revert base. induction order as [|j order IH]; intros base; simpl.
  - done.
  - by rewrite IH, <- !app_assoc.
Qed.

Lemma accumulate_length f base order k i argv :
  (∀ j, length (f j) = 2%nat) →
  accumulate f base order !! k = Some (i, argv) →
  length argv = (length base + 2 * S k)%nat.
Proof.
  intros Hf. revert base k. induction order as [|j order IH];
    intros base [|k] Hk; simplify_eq/=.
  - rewrite length_app, Hf. lia.
  - apply IH in Hk. rewrite length_app, Hf in Hk. lia.
Qed.

Lemma dispatch_spawned st i :
  spawned (dispatch h i st)
  = (if testMode st then spawned st
     else spawned st ++ [(i, BASE_WEBP_SETTINGS st ++ args_of st i)])
  ∧ BASE_WEBP_SETTINGS (dispatch h i st)
    = (if testMode st then BASE_WEBP_SETTINGS st
       else BASE_WEBP_SETTINGS st ++ args_of st i).
Proof.
  unfold dispatch, resolve, log, spawned, args_of.
  destruct (testMode st), (silentMode st) eqn:Hs; simpl; rewrite ?Hs; simpl;
    rewrite ?omap_app; csimpl; by rewrite ?app_nil_r, <- ?app_assoc.
Qed.

Lemma args_accumulated_dispatch st i :
  args_accumulated st → args_accumulated (dispatch h i st).
Proof.
  intros [Hbase Hsp].
  destruct (dispatch_spawned st i) as [Hs Hb].
  destruct (dispatch_fields h i st) as (_ & _ & Hin & Hout & Hfiles & _).
  assert (∀ j, args_of (dispatch h i st) j = args_of st j) as Hargs.
  { intros j. unfold args_of, file. by rewrite Hin, Hout, Hfiles. }
  unfold args_accumulated. rewrite Hs, Hb.
  rewrite (flat_map_ext _ _ Hargs).
  assert (∀ b o, accumulate (args_of (dispatch h i st)) b o
                 = accumulate (args_of st) b o) as Hacc.
  { intros b o. revert b. induction o as [|j o IH]; intros b; simpl; [done|].
    by rewrite Hargs, IH. }
  rewrite Hacc.
  destruct (testMode st); [done|].
  rewrite fmap_app.
  change ([(i, BASE_WEBP_SETTINGS st ++ args_of st i)].*1) with [i].
  rewrite flat_map_app, accumulate_snoc, <- Hsp.
  change (flat_map (args_of st) [i]) with (args_of st i ++ []).
  rewrite app_nil_r, Hbase, <- !app_assoc. done.
Qed.

Lemma args_accumulated_on_close st i code :
  args_accumulated st → args_accumulated (on_close i code st).
Proof.
  intros HA.
  assert (BASE_WEBP_SETTINGS (on_close i code st) = BASE_WEBP_SETTINGS st
          ∧ spawned (on_close i code st) = spawned st
          ∧ ∀ j, args_of (on_close i code st) j = args_of st j) as (Hb & Hs & Hargs).
  { unfold on_close, resolve, log, spawned, args_of, file.
    destruct (bool_decide _), (silentMode st) eqn:Hsil; simpl; rewrite ?Hsil;
      simpl; rewrite ?omap_app; csimpl; by rewrite ?app_nil_r. }
  unfold args_accumulated. rewrite Hb, Hs, (flat_map_ext _ _ Hargs).
  assert (∀ b o, accumulate (args_of (on_close i code st)) b o
                 = accumulate (args_of st) b o) as ->.
  { intros b o. revert b. induction o as [|j o IH]; intros b; simpl; [done|].
    by rewrite Hargs, IH. }
  done.
Qed.

(** X10. All processes share one argument list that only grows: the
    list given to a process is the seven settings followed by the two
    arguments of every file spawned so far, in the order of the spawns,
    its own two last. The process spawned as number [k], counting from 0,
    is given 9 + 2k arguments, and the array [BASE_WEBP_SETTINGS] holds
    them all. *)
Theorem spawn_arguments_accumulate args evs :
  let st := run h (main h args) evs in
  spawned st = accumulate (args_of st) BASE_WEBP_SETTINGS_init (spawned st).*1
  ∧ BASE_WEBP_SETTINGS st
    = BASE_WEBP_SETTINGS_init ++ flat_map (args_of st) (spawned st).*1
  ∧ ∀ k i argv, spawned st !! k = Some (i, argv) →
      length argv = (9 + 2 * k)%nat.
Proof.
  intros st.
  assert (args_accumulated st) as [Hb Hs].
  { unfold st. destruct (main_shape h args) as (st0 & HF & -> & _).
    apply (lift_reachable h args_accumulated); try done.
    - apply args_accumulated_dispatch.
    - apply args_accumulated_on_close.
    - destruct HF as (_ & _ & _ & Htr & Hbase).
      unfold args_accumulated, spawned.
      rewrite omap_console; [done|by intros []|done]. }
  split; [done|]. split; [done|].
  intros k i argv Hk. rewrite Hs in Hk.
  apply accumulate_length in Hk; [|done]. simpl in Hk. lia.
Qed.

End Arguments.

(** ** Before the first file: directories and the listing *)

Section Setup.

Variable h : Host.

Lemma dispatch_errors st i :
  errors (dispatch h i st) = errors st
  ∧ concurrency (dispatch h i st)
    = (if testMode st then concurrency st else concurrency st + 1).
Proof.
  unfold dispatch, resolve, log, errors.
  destruct (testMode st), (silentMode st) eqn:Hs; simpl; rewrite ?Hs; simpl;
    rewrite ?omap_app; csimpl; by rewrite ?app_nil_r.
Qed.

Lemma foldl_executor_keeps l : ∀ st,
  let st' := foldl (fun st i => executor h i st) st l in
  errors st' = errors st
  ∧ inputDirectory st' = inputDirectory st
  ∧ outputDirectory st' = outputDirectory st
  ∧ inputFiles st' = inputFiles st.
Proof.
  induction l as [|i l IH]; intros st; [done|]. simpl.
  destruct (IH (executor h i st)) as (-> & -> & -> & ->). clear IH.
  apply (lift_executor h (fun st' =>
           errors st' = errors st
           ∧ inputDirectory st' = inputDirectory st
           ∧ outputDirectory st' = outputDirectory st
           ∧ inputFiles st' = inputFiles st)); try done.
  intros st' j (<- & <- & <- & <-).
  destruct (dispatch_fields h j st') as (_ & _ & ? & ? & ? & _).
  by destruct (dispatch_errors st' j) as [? _].
Qed.

Lemma fields_log args st :
  inputDirectory (log args st) = inputDirectory st
  ∧ outputDirectory (log args st) = outputDirectory st
  ∧ errors (log args st) = errors st
  ∧ phases (log args st) = phases st ∧ jobs (log args st) = jobs st
  ∧ spawned (log args st) = spawned st ∧ outcomes (log args st) = outcomes st.
Proof.
  unfold log, errors, spawned, outcomes. destruct (silentMode st); [done|].
  simpl. rewrite !omap_app. csimpl. by rewrite !app_nil_r.
Qed.

Lemma fields_error_unless v args st :
  inputDirectory (error_unless v args st) = inputDirectory st
  ∧ outputDirectory (error_unless v args st) = outputDirectory st
  ∧ errors (error_unless v args st)
    = errors st ++ (if JS.Boolean v then [] else [args])
  ∧ phases (error_unless v args st) = phases st
  ∧ jobs (error_unless v args st) = jobs st
  ∧ spawned (error_unless v args st) = spawned st
  ∧ outcomes (error_unless v args st) = outcomes st.
Proof.
  unfold error_unless, errors, spawned, outcomes.
  destruct (JS.Boolean v); [by rewrite app_nil_r|].
  simpl. rewrite !omap_app. csimpl. by rewrite !app_nil_r.
Qed.

(** What [main] has done when it returns, unless it printed the help. *)
Lemma main_checked args :
  checkArgsForFlag args "-h" = false →
  let st := main h args in
  inputDirectory st = chosen_input h args
  ∧ outputDirectory st = chosen_output h args
  ∧ if existsSync h (chosen_input h args)
       && existsSync h (chosen_output h args) && existsSync h (cwebpPath h)
    then
      inputFiles st = inputFiles_of (readdirSync h (chosen_input h args))
      ∧ errors st
        = (if (length (inputFiles st) =? 0)%nat
           then [[JS.Str "No compatible files found"]] else [])
    else
      inputFiles st = [] ∧ phases st = [] ∧ jobs st = []
      ∧ spawned st = [] ∧ outcomes st = []
      ∧ errors st
        = (if existsSync h (chosen_input h args) then [] else [missing_input st])
          ++ (if existsSync h (chosen_input h args)
                 && existsSync h (chosen_output h args)
              then [] else [missing_output st])
          ++ [missing_cwebp h].
Proof.
  intros Hh. unfold main. rewrite Hh. cbv zeta.
  change (match args !! 0%nat with
          | Some a => if existsSync h a then path_resolve h a
                      else inputDirectory (set_flags (checkArgsForFlag args "-s")
                                             (checkArgsForFlag args "-t") init)
          | None => inputDirectory (set_flags (checkArgsForFlag args "-s")
                                      (checkArgsForFlag args "-t") init)
          end) with (chosen_input h args).
  change (match args !! 1%nat with
          | Some a => if existsSync h a then path_resolve h a
                      else outputDirectory (set_flags (checkArgsForFlag args "-s")
                                              (checkArgsForFlag args "-t") init)
          | None => outputDirectory (set_flags (checkArgsForFlag args "-s")
                                       (checkArgsForFlag args "-t") init)
          end) with (chosen_output h args).
  generalize (chosen_input h args) (chosen_output h args).
  intros input output.
  destruct (existsSync h input) eqn:Ei, (existsSync h output) eqn:Eo,
    (existsSync h (cwebpPath h)) eqn:Ec.
  2-8: unfold error_unless, log, errors, spawned, outcomes, missing_input,
         missing_output, missing_cwebp;
       simpl; rewrite ?Ei, ?Eo, ?Ec; simpl;
       destruct (checkArgsForFlag args "-s"); simpl; rewrite ?Ei, ?Eo, ?Ec;
       by simpl.
  destruct (fields_log [JS.Str "Platform is %s"; JS.Str (osType h)]
              (set_directories input output
                 (set_flags (checkArgsForFlag args "-s")
                    (checkArgsForFlag args "-t") init)))
    as (Hin & Hout & Herr & _).
  simpl in Hin, Hout, Herr.
  rewrite Hin, Hout, Ei, Eo. simpl.
  match goal with
  | |- context [foldl _ ?s ?l] =>
      destruct (foldl_executor_keeps l s) as (He & Hi & Ho & Hf)
  end.
  rewrite He, Hi, Ho, Hf.
  destruct (length _ =? 0)%nat eqn:Hlen.
  - simpl. rewrite Hin, Hout, Hlen. unfold errors in *. simpl.
    rewrite omap_app, Herr. done.
  - destruct (fields_log
                [JS.Str "%i compatible files found.";
                 JS.Num (Z.of_nat (length (inputFiles_of (readdirSync h input))))]
                (set_inputFiles (inputFiles_of (readdirSync h input))
                   (log [JS.Str "Platform is %s"; JS.Str (osType h)]
                      (set_directories input output
                         (set_flags (checkArgsForFlag args "-s")
                            (checkArgsForFlag args "-t") init)))))
      as (-> & -> & -> & _).
    rewrite inputFiles_log. simpl. rewrite Hin, Hout, Hlen.
    unfold errors in *. simpl. rewrite Herr. done.
Qed.

Lemma main_without_files args :
  inputFiles (main h args) = [] →
  let st := main h args in
  phases st = [] ∧ jobs st = [] ∧ spawned st = [] ∧ outcomes st = []
  ∧ batch_resolved st = true ∧ ∀ evs, run h st evs = st.
Proof.
  intros Hnil st. unfold st.
  destruct (main_shape h args) as (st0 & HF & Hmain & _).
  destruct (foldl_executor_fields h (seq 0 (length (inputFiles st0))) st0)
    as (_ & _ & Hf).
  rewrite <- Hmain, Hnil in Hf. rewrite <- Hf in Hmain. simpl in Hmain.
  rewrite Hmain. destruct HF as (_ & Hj & Hp & Htr & _).
  rewrite <- Hf in Hp. simpl in Hp.
  assert (batch_resolved st0 = true) as Hres.
  { unfold batch_resolved. by rewrite Hp. }
  repeat split; try done.
  - unfold spawned. by rewrite omap_console; [|intros []|].
  - unfold outcomes. by rewrite omap_console; [|intros []|].
  - intros evs. by apply resolved_run.
Qed.

(** X11. When the input directory, the output directory or [cwebp] is
    missing, [main] reads no listing and starts nothing: there is no file,
    no process and no outcome, at least one message goes to
    [console.error], and no later event changes anything. *)
Theorem missing_path_stops_the_script args :
  checkArgsForFlag args "-h" = false →
  let st := main h args in
  existsSync h (inputDirectory st) && existsSync h (outputDirectory st)
    && existsSync h (cwebpPath h) = false →
  inputFiles st = [] ∧ spawned st = [] ∧ outcomes st = []
  ∧ errors st ≠ []
  ∧ batch_resolved st = true
  ∧ ∀ evs, run h st evs = st.
Proof.
  intros Hh st Hmiss.
  destruct (main_checked args Hh) as (Hin & Hout & Hcase). fold st in Hin, Hout, Hcase.
  rewrite Hin, Hout in Hmiss. rewrite Hmiss in Hcase.
  destruct Hcase as (Hf & _ & _ & Hsp & Hoc & Herr).
  destruct (main_without_files args Hf) as (_ & _ & _ & _ & Hres & Hrun).
  repeat split; try done.
  rewrite Herr. intros Hnil.
  apply app_eq_nil in Hnil as [_ Hnil]. apply app_eq_nil in Hnil as [_ Hnil].
  discriminate Hnil.
Qed.

(** X12. When a path is missing, [main] names the first missing one
    and every one it did not look at: a missing input directory brings all
    three messages, whether or not the output directory and [cwebp] exist,
    and the message about [cwebp] is printed in every case. *)
Theorem missing_paths_reported args :
  checkArgsForFlag args "-h" = false →
  let st := main h args in
  let input := existsSync h (inputDirectory st) in
  let output := existsSync h (outputDirectory st) in
  input && output && existsSync h (cwebpPath h) = false →
  errors st
  = (if input then [] else [missing_input st])
      ++ (if input && output then [] else [missing_output st])
      ++ [missing_cwebp h]
  ∧ (input = false →
     errors st = [missing_input st; missing_output st; missing_cwebp h]).
Proof.
  intros Hh st input output Hmiss. unfold input, output in *.
  destruct (main_checked args Hh) as (Hin & Hout & Hcase). fold st in Hin, Hout, Hcase.
  rewrite Hin, Hout in *. rewrite Hmiss in Hcase.
  destruct Hcase as (_ & _ & _ & _ & _ & Herr).
  split; [done|]. intros Hi. by rewrite Herr, Hi.
Qed.


End Setup.

(** ** The gate at work *)

Section Gate.

Variable h : Host.

Lemma first_phases_length k : length (first_phases k) = k.
Proof. unfold first_phases. rewrite length_app, !length_replicate. lia. Qed.

Lemma first_phases_S k :
  first_phases (S k)
  = first_phases k ++ [if (k <? 3)%nat then Running else Sleeping].
Proof.
  unfold first_phases. destruct (Nat.ltb_spec k 3) as [Hlt|Hge].
  - replace (S k `min` 3)%nat with (S (k `min` 3)) by lia.
    replace (S k - 3)%nat with 0%nat by lia.
    replace (k - 3)%nat with 0%nat by lia.
    simpl. rewrite !app_nil_r. apply replicate_cons_app.
  - replace (S k `min` 3)%nat with (k `min` 3)%nat by lia.
    replace (S k - 3)%nat with (S (k - 3)) by lia.
    simpl. rewrite replicate_cons_app. by rewrite app_assoc.
Qed.

Lemma first_executors n : ∀ k st,
  testMode st = false → jobs st = [] →
  concurrency st = Z.of_nat (k `min` 3) →
  phases st = first_phases k ++ replicate n Pending →
  (spawned st).*1 = seq 0 (k `min` 3) →
  let st' := foldl (fun st i => executor h i st) st (seq k n) in
  phases st' = first_phases (k + n)
  ∧ concurrency st' = Z.of_nat ((k + n) `min` 3)
  ∧ (spawned st').*1 = seq 0 ((k + n) `min` 3)
  ∧ jobs st' = [].
Proof.
  induction n as [|n IH]; intros k st Ht Hj Hc Hp Hs.
  { simpl. rewrite Nat.add_0_r. simpl in Hp. by rewrite app_nil_r in Hp. }
  simpl.
  assert (phases (executor h k st) = first_phases (S k) ++ replicate n Pending
          ∧ concurrency (executor h k st) = Z.of_nat (S k `min` 3)
          ∧ (spawned (executor h k st)).*1 = seq 0 (S k `min` 3)
          ∧ jobs (executor h k st) = []
          ∧ testMode (executor h k st) = false) as (Hp' & Hc' & Hs' & Hj' & Ht').
  { assert (∀ p, <[k:=p]> (phases st)
                 = first_phases k ++ p :: replicate n Pending) as Hins.
    { intros p. rewrite Hp. simpl.
      rewrite insert_app_r_alt by (rewrite first_phases_length; lia).
      by rewrite first_phases_length, Nat.sub_diag. }
    rewrite first_phases_S, <- app_assoc.
    change ([if (k <? 3)%nat then Running else Sleeping] ++ replicate n Pending)
      with ((if (k <? 3)%nat then Running else Sleeping) :: replicate n Pending).
    unfold executor. rewrite Hc.
    destruct (Nat.ltb_spec k 3) as [Hlt|Hge].
    - destruct (Z.leb_spec MAX_CONCURRENT_FILES (Z.of_nat (k `min` 3)));
        [unfold MAX_CONCURRENT_FILES in *; lia|].
      destruct (dispatch_fields h k st) as (_ & -> & _ & _ & _ & -> & ->).
      destruct (dispatch_spawned h st k) as [-> _].
      destruct (dispatch_errors h st k) as [_ ->].
      rewrite Ht, Hins, fmap_app, Hs, Hc.
      replace (S k `min` 3)%nat with (S k) by lia.
      replace (k `min` 3)%nat with k by lia.
      rewrite seq_S. repeat split; try done. lia.
    - destruct (Z.leb_spec MAX_CONCURRENT_FILES (Z.of_nat (k `min` 3)));
        [|unfold MAX_CONCURRENT_FILES in *; lia].
      unfold retry. rewrite Hc.
      destruct (Z.ltb_spec (Z.of_nat (k `min` 3)) MAX_CONCURRENT_FILES);
        [unfold MAX_CONCURRENT_FILES in *; lia|].
      replace (S k `min` 3)%nat with (k `min` 3)%nat by lia.
      repeat split; [apply Hins | exact Hc | exact Hs | exact Hj | exact Ht]. }
  replace (k + S n)%nat with (S k + n)%nat by lia.
  by apply IH.
Qed.

(** X14. Outside test mode, [main] starts the first three files at
    once, in the order of the listing, and puts every later file to sleep:
    when it returns, three processes run, or as many as there are files. *)
Theorem first_three_start_at_once args :
  testMode (main h args) = false →
  let st := main h args in
  let n := length (inputFiles st) in
  phases st = first_phases n
  ∧ concurrency st = Z.of_nat (n `min` 3)
  ∧ (spawned st).*1 = seq 0 (n `min` 3)
  ∧ jobs st = [].
Proof.
  intros Ht st n. unfold n, st.
  destruct (main_shape h args) as (st0 & HF & Hmain & _).
  destruct (foldl_executor_fields h (seq 0 (length (inputFiles st0))) st0)
    as (_ & Ht0 & Hf0).
  rewrite <- Hmain in Ht0, Hf0. rewrite Hf0, Hmain.
  destruct HF as (Hc & Hj & Hp & Htr & _).
  apply (first_executors (length (inputFiles st0)) 0 st0); try done.
  - congruence.
  - unfold spawned. by rewrite omap_console; [|intros []|].
Qed.

Lemma full_gate_step st ev :
  Inv st → concurrency st = MAX_CONCURRENT_FILES → is_close ev = false →
  concurrency (step h st ev) = concurrency st
  ∧ trace (step h st ev) = trace st
  ∧ BASE_WEBP_SETTINGS (step h st ev) = BASE_WEBP_SETTINGS st.
Proof.
  intros HI Hfull Hev. destruct ev as [i|i code|i chunk|]; try done; simpl.
  - by destruct (_ && _).
  - rewrite on_stderr_data_same. by destruct (_ && _).
  - pose proof (inv_jobs _ HI) as Hj. unfold jobs_ok in Hj.
    destruct (jobs st) as [|[i|i] [|j' js]]; try done; simpl.
    + unfold retry. simpl. rewrite Hfull.
      by destruct (Z.ltb_spec MAX_CONCURRENT_FILES MAX_CONCURRENT_FILES); [lia|].
    + lia.
Qed.

(** X15. While three processes run, no timer, promise job or write to
    stderr lets another file in: as long as no process closes, the counter
    stays at three and nothing is spawned, printed or resolved. *)
Theorem full_gate_lets_nobody_in args evs evs' :
  let st := run h (main h args) evs in
  concurrency st = MAX_CONCURRENT_FILES →
  forallb (fun ev => negb (is_close ev)) evs' = true →
  let st' := run h st evs' in
  concurrency st' = MAX_CONCURRENT_FILES
  ∧ trace st' = trace st
  ∧ spawned st' = spawned st
  ∧ BASE_WEBP_SETTINGS st' = BASE_WEBP_SETTINGS st.
Proof.
  intros st Hfull Hev st'. unfold st'.
  pose proof (Inv_reachable h args evs) as HI. fold st in HI.
  clearbody st. clear st'. revert st HI Hfull Hev.
  induction evs' as [|ev evs' IH]; intros st HI Hfull Hev; [done|].
  simpl in Hev. apply andb_true_iff in Hev as [Hc Hev].
  apply negb_true_iff in Hc.
  destruct (full_gate_step st ev HI Hfull Hc) as (Hc' & Ht' & Hb').
  simpl. destruct (IH (step h st ev)) as (-> & Ht & Hs & ->).
  - by apply Inv_step.
  - congruence.
  - done.
  - unfold spawned in *. rewrite Ht, Ht'. done.
Qed.

(** X16. One poll of a sleeping file, that is its timer and the job it
    leaves: at a full gate the state afterwards is the state before; at a
    free gate the next job takes a slot and spawns the process, with the
    shared argument list grown by the two arguments of the file. *)
Theorem poll_admits_when_free st i :
  jobs st = [] → phases st !! i = Some Sleeping → testMode st = false →
  let st1 := run h st [Timer i; RunJob] in
  (MAX_CONCURRENT_FILES <= concurrency st → st1 = st)
  ∧ (concurrency st < MAX_CONCURRENT_FILES →
     let st2 := run h st1 [RunJob] in
     phases st2 = <[i := Running]> (phases st)
     ∧ concurrency st2 = concurrency st + 1
     ∧ spawned st2
       = spawned st ++ [(i, BASE_WEBP_SETTINGS st ++ args_of st i)]
     ∧ jobs st2 = []).
Proof.
  intros Hj Hp Ht st1.
  assert (st1 = retry i (set_jobs [] (set_jobs [JRetry i]
                                   (set_phase i RetryQueued st)))) as Hst1.
  { unfold st1. rewrite !run_cons, step_Timer by done. reflexivity. }
  split.
  - intros Hfull. rewrite Hst1. unfold retry. simpl.
    destruct (Z.ltb_spec (concurrency st) MAX_CONCURRENT_FILES); [lia|].
    destruct st as [? ? ? ? ? ? ? ph js ?]. simpl in *. subst js.
    unfold set_phase. simpl. f_equal.
    rewrite list_insert_insert_eq. by apply list_insert_id.
  - intros Hfree st2.
    assert (st2 = dispatch h i (set_jobs []
              (set_jobs [JResume i] (set_phase i ResumeQueued
                 (set_jobs [] (set_jobs [JRetry i]
                    (set_phase i RetryQueued st))))))) as ->.
    { unfold st2. rewrite run_cons, Hst1. unfold retry. simpl.
      destruct (Z.ltb_spec (concurrency st) MAX_CONCURRENT_FILES); [|lia].
      reflexivity. }
    match goal with |- context [dispatch h i ?s] =>
      destruct (dispatch_fields h i s) as (_ & _ & _ & _ & _ & -> & ->);
      destruct (dispatch_spawned h s i) as [-> _];
      destruct (dispatch_errors h s i) as [_ ->]
    end.
    simpl. rewrite Ht, !list_insert_insert_eq. done.
Qed.

End Gate.

(** ** Flags once more *)

(** X17. Flags cannot be written together: one argument switches on at
    most one of help, silent mode and test mode, so [-st] is silent mode
    without test mode. *)
Theorem one_argument_sets_one_flag a :
  checkArgsForFlag [a] "-h" && checkArgsForFlag [a] "-s" = false
  ∧ checkArgsForFlag [a] "-h" && checkArgsForFlag [a] "-t" = false
  ∧ checkArgsForFlag [a] "-s" && checkArgsForFlag [a] "-t" = false
  ∧ checkArgsForFlag ["-st"] "-s" = true
  ∧ checkArgsForFlag ["-st"] "-t" = false.
Proof.
  assert (∀ f g, f ≠ EmptyString → g ≠ EmptyString →
            (∀ p q, a = f +:+ p → a = g +:+ q → False) →
            checkArgsForFlag [a] f && checkArgsForFlag [a] g = false) as Hone.
  { intros f g Hf Hg Hx. apply not_true_is_false.
    intros [H1 H2]%andb_true_iff.
    apply checkArgsForFlag_iff in H1 as (a1 & Ha1 & Hp1); [|done].
    apply checkArgsForFlag_iff in H2 as (a2 & Ha2 & Hp2); [|done].
    apply list_elem_of_singleton in Ha1 as ->.
    apply list_elem_of_singleton in Ha2 as ->.
    apply prefix_iff in Hp1 as [p Hp], Hp2 as [q Hq]. by apply (Hx p q). }
  repeat split; try reflexivity;
    apply Hone; try done; intros p q -> Hq; discriminate Hq.
Qed.

Section Help.

Variable h : Host.

(** X18. With [-h] the whole script prints the help text and then
    [Script completed.], both also when [-s] is given, since [main]
    returns before [silentMode] is set. It prints nothing else: no path
    is checked, no error is written, no file is listed, no process is
    started, and no event changes the state [main] returned. *)
Theorem help_comes_first args evs :
  checkArgsForFlag args "-h" = true →
  let st := script h args evs in
  run h (main h args) evs = main h args
  ∧ batch_resolved (main h args) = true
  ∧ st = on_fulfilled (main h args)
  ∧ logs st = [[JS.Str HELP_TEXT]; [JS.Str "Script completed."]]
  ∧ errors st = [] ∧ spawned st = [] ∧ inputFiles st = []
  ∧ silentMode st = false.
Proof.
  intros Hh st. unfold st, script. rewrite (main_help h args Hh).
  by rewrite resolved_run.
Qed.

End Help.

(** ** The further properties on concrete inputs *)

Lemma compatible_iff_part_of_extension_witness :
  (4 < String.length (eExt "notes.backup"))%nat
  ∧ compatible "notes.backup" = false
  ∧ ∃ ext, ext ∈ COMPATIBLE_FILE_EXTS ∧ occurs_in (eExt "x.pe") ext.
Proof.
  destruct (compatible_iff_part_of_extension "notes.backup") as [_ Hlong].
  destruct (compatible_iff_part_of_extension "x.pe") as [Hiff _].
  assert ((4 < String.length (eExt "notes.backup"))%nat) as Hl
    by (vm_compute; lia).
  split; [exact Hl|]. split; [exact (Hlong Hl)|].
  apply Hiff. reflexivity.
Defined.

Lemma whitelisted_name_is_kept_witness :
  ascii_text ("Holiday.2019" +:+ "." +:+ "JPG") = true
  ∧ contains_char "." "JPG" = false
  ∧ JS.toLowerCase "JPG" ∈ COMPATIBLE_FILE_EXTS
  ∧ compatible ("Holiday.2019" +:+ "." +:+ "JPG") = true.
Proof.
  assert (ascii_text ("Holiday.2019" +:+ "." +:+ "JPG") = true) as H0
    by reflexivity.
  assert (contains_char "." "JPG" = false) as H1 by reflexivity.
  assert (JS.toLowerCase "JPG" ∈ COMPATIBLE_FILE_EXTS) as H2.
  { apply list_elem_of_further, list_elem_of_here. }
  split; [exact H0|]. split; [exact H1|]. split; [exact H2|].
  exact (proj2 (proj2 (whitelisted_name_is_kept "Holiday.2019" "JPG" H0 H1 H2))).
Defined.

Lemma dotless_entry_is_its_own_extension_witness :
  contains_char "." "PE" = false ∧ eExt "PE" = "pe" ∧ compatible "PE" = true.
Proof.
  assert (contains_char "." "PE" = false) as H1 by reflexivity.
  destruct (dotless_entry_is_its_own_extension "PE" H1) as [Hext Hiff].
  split; [exact H1|]. split; [exact Hext|].
  apply Hiff. exists "jpeg". split.
  - apply list_elem_of_further, list_elem_of_further, list_elem_of_here.
  - by exists "j", "g".
Defined.

Lemma classifier_reads_last_token_witness :
  contains_char " " "12.5" = false
  ∧ hack_IsErrorAnError (JS.Str ("Saving file out.webp PSNR" +:+ " " +:+ "12.5"))
    = JS.Bool false
  ∧ hack_IsErrorAnError (JS.Str ("Output: 12.5" +:+ " ")) = JS.Undefined.
Proof.
  assert (contains_char " " "12.5" = false) as H1 by reflexivity.
  destruct (classifier_reads_last_token "Saving file out.webp PSNR" "12.5" H1)
    as [Hlast _].
  destruct (classifier_reads_last_token "Output: 12.5" "12.5" H1) as [_ Hsp].
  split; [exact H1|]. split; [|exact Hsp].
  rewrite Hlast. reflexivity.
Defined.

Lemma digit_dot_token_is_benign_witness :
  JS.is_digit "1" = true
  ∧ contains_char " " "0.0.0.1:refused" = false
  ∧ contains_char "." "0.0.0.1:refused" = true
  ∧ hack_IsErrorAnError
      (JS.Str ("Error: connect" +:+ " " +:+ "10.0.0.1:refused"))
    = JS.Bool false.
Proof.
  assert (JS.is_digit "1" = true) as H1 by reflexivity.
  assert (contains_char " " "0.0.0.1:refused" = false) as H2 by reflexivity.
  assert (contains_char "." "0.0.0.1:refused" = true) as H3 by reflexivity.
  split; [exact H1|]. split; [exact H2|]. split; [exact H3|].
  exact (proj2 (digit_dot_token_is_benign "Error: connect" "1"
                  "0.0.0.1:refused" H1 H2 H3)).
Defined.

Lemma silent_mode_logs_nothing_witness :
  let h := demo_host ["a.png"; "b.png"] in
  let st := run h (main h ["-s"]) [Close 0 (Some 1)] in
  silentMode (main h ["-s"]) = true
  ∧ logs st = []
  ∧ length (errors st) = 1%nat.
Proof.
  intros h st.
  assert (silentMode (main h ["-s"]) = true) as Hs by reflexivity.
  destruct (silent_mode_logs_nothing h ["-s"] [Close 0 (Some 1)] Hs)
    as [Hlogs _].
  split; [exact Hs|]. split; [exact Hlogs|]. reflexivity.
Defined.

Lemma spawns_use_cwebp_witness :
  let h := demo_host ["a.png"] in
  let st := run h (main h []) [] in
  ∃ argv, Spawn 0 "/work/bin/cwebp" argv false ∈ trace st
          ∧ "/work/bin/cwebp" = cwebpPath h ∧ testMode st = false.
Proof.
  intros h st. eexists.
  assert (Spawn 0 "/work/bin/cwebp"
            (own_argv st "a.png") false ∈ trace st) as Hin.
  { vm_compute. do 4 apply list_elem_of_further. apply list_elem_of_here. }
  destruct (spawns_use_cwebp h [] [] _ _ _ _ Hin) as (Hc & _ & Ht).
  split; [exact Hin|]. split; [exact Hc|exact Ht].
Defined.

Lemma spawn_arguments_accumulate_witness :
  let h := demo_host ["a.png"; "b.png"; "c.png"] in
  let st := main h [] in
  ∃ argv, spawned st !! 2%nat = Some (2%nat, argv) ∧ length argv = 13%nat.
Proof.
  intros h st.
  destruct (spawn_arguments_accumulate h [] []) as (_ & _ & Hlen).
  destruct (spawned st !! 2%nat) as [[i argv]|] eqn:Hk; [|discriminate Hk].
  assert (i = 2%nat) as -> by (vm_compute in Hk; congruence).
  exists argv. split; [reflexivity|]. exact (Hlen 2%nat 2%nat argv Hk).
Defined.

Lemma every_outcome_is_announced_witness :
  let h := demo_host ["a.png"] in
  let st := run h (main h []) [Close 0 (Some 1)] in
  silentMode (main h []) = false
  ∧ List.filter is_generated (logs st) = [[JS.Str "Generated a.png.webp"]].
Proof.
  intros h st.
  assert (silentMode (main h []) = false) as Hs by reflexivity.
  split; [exact Hs|].
  pose proof (every_outcome_is_announced h [] [Close 0 (Some 1)] Hs) as Ha.
  fold st in Ha. cbv zeta in Ha. rewrite Ha. reflexivity.
Defined.

(** A host without [input/]: the output directory and [cwebp] exist. *)
Lemma missing_path_stops_the_script_witness :
  let h := {| osType := "linux"; path_resolve := fun p => "/work/" +:+ p;
              existsSync := fun p =>
                bool_decide (p ∈ ["output/"; "/work/bin/cwebp"]);
              readdirSync := fun _ => ["a.png"] |} in
  let st := main h [] in
  checkArgsForFlag [] "-h" = false
  ∧ existsSync h (inputDirectory st) && existsSync h (outputDirectory st)
      && existsSync h (cwebpPath h) = false
  ∧ inputFiles st = [] ∧ spawned st = [].
Proof.
  intros h st.
  assert (checkArgsForFlag [] "-h" = false) as Hh by reflexivity.
  assert (existsSync h (inputDirectory st) && existsSync h (outputDirectory st)
            && existsSync h (cwebpPath h) = false) as Hm by reflexivity.
  destruct (missing_path_stops_the_script h [] Hh Hm) as (Hf & Hsp & _).
  split; [exact Hh|]. split; [exact Hm|]. split; [exact Hf|exact Hsp].
Defined.

Lemma missing_paths_reported_witness :
  let h := {| osType := "linux"; path_resolve := fun p => "/work/" +:+ p;
              existsSync := fun p =>
                bool_decide (p ∈ ["output/"; "/work/bin/cwebp"]);
              readdirSync := fun _ => ["a.png"] |} in
  let st := main h [] in
  checkArgsForFlag [] "-h" = false
  ∧ existsSync h (outputDirectory st) = true
  ∧ existsSync h (cwebpPath h) = true
  ∧ errors st = [missing_input st; missing_output st; missing_cwebp h].
Proof.
  intros h st.
  assert (checkArgsForFlag [] "-h" = false) as Hh by reflexivity.
  assert (existsSync h (inputDirectory st) && existsSync h (outputDirectory st)
            && existsSync h (cwebpPath h) = false) as Hm by reflexivity.
  destruct (missing_paths_reported h [] Hh Hm) as [_ Hall].
  split; [exact Hh|]. split; [reflexivity|]. split; [reflexivity|].
  apply Hall. reflexivity.
Defined.


Lemma first_three_start_at_once_witness :
  let h := demo_host ["a.png"; "b.png"; "c.png"; "d.png"; "e.png"] in
  let st := main h [] in
  testMode st = false
  ∧ phases st = [Running; Running; Running; Sleeping; Sleeping]
  ∧ concurrency st = 3.
Proof.
  intros h st.
  assert (testMode (main h []) = false) as Ht by reflexivity.
  destruct (first_three_start_at_once h [] Ht) as (Hp & Hc & _).
  split; [exact Ht|]. split.
  - etrans; [exact Hp|reflexivity].
  - etrans; [exact Hc|reflexivity].
Defined.

Lemma full_gate_lets_nobody_in_witness :
  let h := demo_host ["a.png"; "b.png"; "c.png"; "d.png"] in
  let st := run h (main h []) [] in
  let evs' := [Timer 3; RunJob; StderrData 0 "oops"; Timer 3; RunJob] in
  concurrency st = MAX_CONCURRENT_FILES
  ∧ forallb (fun ev => negb (is_close ev)) evs' = true
  ∧ concurrency (run h st evs') = MAX_CONCURRENT_FILES
  ∧ spawned (run h st evs') = spawned st.
Proof.
  intros h st evs'.
  assert (concurrency (run h (main h []) []) = MAX_CONCURRENT_FILES) as Hc
    by reflexivity.
  assert (forallb (fun ev => negb (is_close ev)) evs' = true) as He
    by reflexivity.
  destruct (full_gate_lets_nobody_in h [] [] evs' Hc He) as (Hc' & _ & Hs & _).
  split; [exact Hc|]. split; [exact He|]. split; [exact Hc'|exact Hs].
Defined.

Lemma poll_admits_when_free_witness :
  let h := demo_host ["a.png"; "b.png"; "c.png"; "d.png"] in
  let st := run h (main h []) [Close 1 (Some 0)] in
  jobs st = [] ∧ phases st !! 3%nat = Some Sleeping ∧ testMode st = false
  ∧ concurrency st < MAX_CONCURRENT_FILES
  ∧ phases (run h (run h st [Timer 3; RunJob]) [RunJob])
    = [Running; Done; Running; Running].
Proof.
  intros h st.
  assert (jobs st = []) as Hj by reflexivity.
  assert (phases st !! 3%nat = Some Sleeping) as Hp by reflexivity.
  assert (testMode st = false) as Ht by reflexivity.
  assert (concurrency st < MAX_CONCURRENT_FILES) as Hlt by reflexivity.
  destruct (poll_admits_when_free h st 3 Hj Hp Ht) as [_ Hfree].
  destruct (Hfree Hlt) as (Hph & _).
  split; [exact Hj|]. split; [exact Hp|]. split; [exact Ht|].
  split; [exact Hlt|]. etrans; [exact Hph|reflexivity].
Defined.

Lemma help_comes_first_witness :
  let h := demo_host ["a.png"] in
  let st := script h ["-s"; "-help"] [Timer 0; RunJob] in
  checkArgsForFlag ["-s"; "-help"] "-h" = true
  ∧ logs st = [[JS.Str HELP_TEXT]; [JS.Str "Script completed."]]
  ∧ spawned st = [].
Proof.
  intros h st.
  assert (checkArgsForFlag ["-s"; "-help"] "-h" = true) as Hh by reflexivity.
  destruct (help_comes_first h ["-s"; "-help"] [Timer 0; RunJob] Hh)
    as (_ & _ & _ & Hlogs & _ & Hsp & _).
  split; [exact Hh|]. split; [exact Hlogs|exact Hsp].
Defined.
